(** * model-synth: the Meshy clients, embedded and verified

    A shallow embedding of the request executor of [clients/base.ts]
    (rate limiting, retry with backoff, HTTP error classification), of the
    endpoint clients (text-to-3d, animations, retexture, rigging: creating,
    fetching, polling and deleting tasks) and of the [ModelSynth] facade of
    [index.ts], followed by the properties proved about them.

    Conventions of the embedding:
    - an [async] method is a computation in the monad [M]: it takes the
      world, and resolves with a value or rejects with an [Err];
    - the world holds what the code reads and mutates: the wall clock behind
      [Date.now()], the client's [requestTimes], how many replies of the
      network and how many draws of [Math.random()] were consumed, and a
      trace of the effects in the order the code performed them;
    - the network, its latency and the random source are an environment
      [Env], arbitrary and fixed during a run;
    - a JavaScript [number] holding a status code, a timestamp or a delay
      computed from timestamps is a [Z]; the numbers of the backoff
      computation are doubles, by their values in [Q] and with the
      rounding of every operation ([Double]);
    - a parsed JSON object is the finite map of its string-valued
      properties: the body of a reply is a text that is not JSON, or a JSON
      object whose properties are strings. *)

From Stdlib Require Import ZArith QArith Qround Qminmax Qpower Qabs Lia Lqa
  String.
From stdpp Require Import base list gmap strings pretty.

Open Scope string_scope.
Open Scope list_scope.
Open Scope Z_scope.

(** ** Shared runtime model *)

(** A parsed JSON object, by its string-valued properties. *)
Abbreviation JsObject := (gmap string string).

(** [a || b] on a property that is a string or [undefined]: the empty
    string and [undefined] are falsy. *)
Definition or_else (a : option string) (b : string) : string :=
  match a with
  | Some s => if decide (s = "") then b else s
  | None => b
  end.

(** [!a] on such a property. *)
Definition falsy (a : option string) : bool :=
  match a with
  | Some s => bool_decide (s = "")
  | None => true
  end.

(** A [node-fetch] response: [text] is what [response.text()] resolves to
    and [json] what [JSON.parse] makes of that text ([None] when it throws a
    [SyntaxError]); [response.json()] resolves to the same object. *)
Record Response := {
  status : Z;
  text : string;
  json : option JsObject
}.

(** [response.ok]: the status is in the range 200-299. *)
Definition ok (r : Response) : bool :=
  (200 <=? status r) && (status r <=? 299).

Inductive FetchResult :=
| NetworkFailure (message : string)
| Reply (response : Response).

(** The error classes of [base.ts]; [Error] stands for every built-in error
    ([Error], [SyntaxError], [FetchError]). *)
Inductive Err :=
| Error (message : string)
| MeshyError (message : string) (statusCode : Z) (responseBody : option JsObject)
| MeshyRateLimitError (message : string) (responseBody : option JsObject)
| MeshyAuthError (message : string)
| MeshyPaymentError (message : string).

Definition message (e : Err) : string :=
  match e with
  | Error m | MeshyError m _ _ | MeshyRateLimitError m _
  | MeshyAuthError m | MeshyPaymentError m => m
  end.

Definition statusCode (e : Err) : option Z :=
  match e with
  | Error _ => None
  | MeshyError _ s _ => Some s
  | MeshyRateLimitError _ _ => Some 429
  | MeshyAuthError _ => Some 401
  | MeshyPaymentError _ => Some 402
  end.

Definition responseBody (e : Err) : option JsObject :=
  match e with
  | MeshyError _ _ b | MeshyRateLimitError _ b => b
  | Error _ | MeshyAuthError _ | MeshyPaymentError _ => None
  end.


(** Effects, in the order the code performs them. [EAdmit] marks an entry
    into [checkRateLimit] and [EPush] a [requestTimes.push]; the others are
    calls of [fetch], [setTimeout] and [console.warn]. *)
Inductive Effect :=
| EAdmit
| EFetch (url : string)
| ESleep (ms : Z)
| EWarn (message : string)
| EPush (time : Z).

#[export] Instance Effect_eq_dec : EqDecision Effect.
Proof. solve_decision. Defined.

Record World := {
  clock : Z;
  requestTimes : list Z;
  fetched : nat;
  drawn : nat;
  trace : list Effect
}.

Record Env := {
  net : nat -> FetchResult;
  latency : nat -> nat;
  random : nat -> Q
}.

Definition M (A : Type) : Type := World -> (Err + A) * World.

Definition ret {A} (a : A) : M A := fun w => (inr a, w).

Definition throw {A} (e : Err) : M A := fun w => (inl e, w).

Definition bind {A B} (m : M A) (k : A -> M B) : M B :=
  fun w =>
    match m w with
    | (inr a, w') => k a w'
    | (inl e, w') => (inl e, w')
    end.

(** [try { body } catch (error) { handler }]. *)
Definition try_catch {A} (body : M A) (handler : Err -> M A) : M A :=
  fun w =>
    match body w with
    | (inr a, w') => (inr a, w')
    | (inl e, w') => handler e w'
    end.

Notation "'let*' x ':=' m 'in' k" := (bind m (fun x => k))
  (at level 10, x name, m at level 100, k at level 200).

Definition emit (e : Effect) : M unit :=
  fun w =>
    (inr tt, {| clock := clock w; requestTimes := requestTimes w;
                fetched := fetched w; drawn := drawn w;
                trace := trace w ++ [e] |}).

Definition advance (ms : Z) : M unit :=
  fun w =>
    (inr tt, {| clock := clock w + ms; requestTimes := requestTimes w;
                fetched := fetched w; drawn := drawn w; trace := trace w |}).

(** [Date.now()]. *)
Definition Date_now : M Z := fun w => (inr (clock w), w).

(** [new Promise((resolve) => setTimeout(resolve, ms))]: the clock moves on
    by [ms] (a negative delay fires at once). *)
Definition sleep (ms : Z) : M unit :=
  let* _ := emit (ESleep ms) in
  advance (Z.max 0 ms).

Definition console_warn (message : string) : M unit := emit (EWarn message).

(** [Math.random()]: the next draw of the random source. *)
Definition Math_random (E : Env) : M Q :=
  fun w =>
    (inr (random E (drawn w)),
     {| clock := clock w; requestTimes := requestTimes w;
        fetched := fetched w; drawn := S (drawn w); trace := trace w |}).

(** [fetch(url, options)]: one network attempt. It takes the next reply of
    the network, after that reply's latency; a transport failure rejects.
    The method, headers and body of the request have no part in what the
    clients do with the reply, and are left out. *)
Definition fetch (E : Env) (url : string) : M Response :=
  fun w =>
    let i := fetched w in
    let w' := {| clock := clock w + Z.of_nat (latency E i);
                 requestTimes := requestTimes w;
                 fetched := S i; drawn := drawn w;
                 trace := trace w ++ [EFetch url] |} in
    match net E i with
    | NetworkFailure m => (inl (Error m), w')
    | Reply r => (inr r, w')
    end.

(** [await response.json()]. *)
Definition response_json (r : Response) : M JsObject :=
  match json r with
  | Some o => ret o
  | None => throw (Error "SyntaxError: invalid json response body")
  end.

(** ** JavaScript numbers *)

Module Double.

(** A JavaScript number: a finite double by its value (the two zeros are
    one), an infinity, or [NaN]. *)
Inductive number :=
| Num (value : Q)
| PosInfinity
| NegInfinity
| NaN.

(** The integer part of the base-2 logarithm of a rational [x > 0]. *)
Definition ilog2 (x : Q) : Z :=
  let k := Z.log2 (Qnum x) - Z.log2 (Zpos (Qden x)) in
  if Qle_bool (2 ^ k) x then k else k - 1.

(** The integer nearest to [x], the even one of two that are equally
    near. *)
Definition nearest_even (x : Q) : Z :=
  let f := Qfloor x in
  match (x - inject_Z f ?= 1 # 2)%Q with
  | Lt => f
  | Gt => f + 1
  | Eq => if Z.even f then f else f + 1
  end.

(** The exponent of the spacing of the doubles around [x <> 0]: 53 bits of
    precision, and [2^-1074] between the subnormal ones. *)
Definition quantum (x : Q) : Z := Z.max (ilog2 (Qabs x)) (-1022) - 52.

(** [x] rounded to that spacing, ties to even. *)
Definition rounded (x : Q) : Q :=
  (inject_Z (nearest_even (x / 2 ^ quantum x)) * 2 ^ quantum x)%Q.

(** The double nearest to [x], as every arithmetic operation returns it:
    ties to even, and an infinity when the rounding reaches [2^1024]. *)
Definition round (x : Q) : number :=
  if Qeq_bool x 0 then Num 0
  else
    let v := rounded x in
    if Qle_bool (2 ^ 1024) (Qabs v)
    then if Qle_bool 0 x then PosInfinity else NegInfinity
    else Num (Qred v).

(** Whether [x] is the value of a double. *)
Definition is_double (x : Q) : bool :=
  match round x with
  | Num v => Qeq_bool v x
  | _ => false
  end.

Definition finite (a : number) : bool :=
  match a with
  | Num _ => true
  | _ => false
  end.

(** [a * b]. *)
Definition mul (a b : number) : number :=
  match a, b with
  | NaN, _ | _, NaN => NaN
  | Num x, Num y => round (x * y)
  | Num x, PosInfinity | PosInfinity, Num x =>
      match (x ?= 0)%Q with
      | Eq => NaN
      | Gt => PosInfinity
      | Lt => NegInfinity
      end
  | Num x, NegInfinity | NegInfinity, Num x =>
      match (x ?= 0)%Q with
      | Eq => NaN
      | Gt => NegInfinity
      | Lt => PosInfinity
      end
  | PosInfinity, PosInfinity | NegInfinity, NegInfinity => PosInfinity
  | PosInfinity, NegInfinity | NegInfinity, PosInfinity => NegInfinity
  end.

(** [a + b]. *)
Definition add (a b : number) : number :=
  match a, b with
  | NaN, _ | _, NaN => NaN
  | Num x, Num y => round (x + y)
  | PosInfinity, NegInfinity | NegInfinity, PosInfinity => NaN
  | PosInfinity, _ | _, PosInfinity => PosInfinity
  | NegInfinity, _ | _, NegInfinity => NegInfinity
  end.

(** [Math.min(a, b)]. *)
Definition Math_min (a b : number) : number :=
  match a, b with
  | NaN, _ | _, NaN => NaN
  | NegInfinity, _ | _, NegInfinity => NegInfinity
  | PosInfinity, c | c, PosInfinity => c
  | Num x, Num y => Num (Qmin x y)
  end.

(** [Math.pow(2, n)] for a natural number [n]: the power itself, or
    [Infinity] from [2^1024] on. *)
Definition Math_pow_2 (n : nat) : number := round (2 ^ Z.of_nat n).

(** What [Math.floor] returns: an integer, or its argument when that is no
    finite number. *)
Inductive integral :=
| Integer (z : Z)
| Infinite (negative : bool)
| NotANumber.

(** [Math.floor(a)]. *)
Definition Math_floor (a : number) : integral :=
  match a with
  | Num x => Integer (Qfloor x)
  | PosInfinity => Infinite false
  | NegInfinity => Infinite true
  | NaN => NotANumber
  end.

(** Whether the decimal [v] reads back as the double [x]. *)
Definition reads_as (v x : Z) : bool :=
  match round (inject_Z v) with
  | Num u => Qeq_bool u (inject_Z x)
  | _ => false
  end.

(** The digits of [x >= 2^53], a double with [d] decimal digits: the
    fewest digits [s], [k] of them from [k] on, with [s * 10^(n - k)]
    reading back as [x]; of two such, the nearer to [x], then the even
    one. The result is [(s, n)]. *)
Fixpoint shortest (fuel : nat) (k x d : Z) : Z * Z :=
  match fuel with
  | O => (x, d)
  | S fuel' =>
      let unit := 10 ^ (d - k) in
      let lo := x / unit in
      let hi := lo + 1 in
      let above := if hi =? 10 ^ k then (10 ^ (k - 1), d + 1) else (hi, d) in
      if reads_as (lo * unit) x && reads_as (hi * unit) x then
        if x - lo * unit <? hi * unit - x then (lo, d)
        else if hi * unit - x <? x - lo * unit then above
        else if Z.even lo then (lo, d) else above
      else if reads_as (lo * unit) x then (lo, d)
      else if reads_as (hi * unit) x then above
      else shortest fuel' (k + 1) x d
  end.

Definition digits_of (z : Z) : Z := Z.of_nat (String.length (pretty z)).

Fixpoint zeros (n : nat) : string :=
  match n with
  | O => ""
  | S n' => "0" +:+ zeros n'
  end.

(** The digits [s] with the decimal exponent [n]: followed by zeros up to
    [n = 21], in exponential notation from there on. *)
Definition decimal_notation (s n : Z) : string :=
  if n <=? 21 then pretty s +:+ zeros (Z.to_nat (n - digits_of s))
  else
    match pretty s with
    | String digit "" => String digit ("e+" +:+ pretty (n - 1))
    | String digit more =>
        String digit ("." +:+ more +:+ "e+" +:+ pretty (n - 1))
    | "" => ""
    end.

(** [String(i)], as a template literal converts an integral number: an
    integer below [2^53] by its digits, a larger one by the fewest digits
    that read back as the same double. *)
Definition Number_toString (i : integral) : string :=
  match i with
  | NotANumber => "NaN"
  | Infinite false => "Infinity"
  | Infinite true => "-Infinity"
  | Integer z =>
      let x := Z.abs z in
      if x <? 2 ^ 53 then pretty z
      else
        let '(s, n) := shortest 17 1 x (digits_of x) in
        (if z <? 0 then "-" else "") +:+ decimal_notation s n
  end.

(** The delay [setTimeout] acts on: one that is no finite number fires at
    once. *)
Definition timeout (i : integral) : Z :=
  match i with
  | Integer z => z
  | _ => 0
  end.

(** The order of the numbers that are neither negative nor [NaN]. *)
Definition below (a b : number) : Prop :=
  match a, b with
  | Num x, Num y => (0 <= x)%Q /\ (x <= y)%Q
  | Num x, PosInfinity => (0 <= x)%Q
  | PosInfinity, PosInfinity => True
  | _, _ => False
  end.

End Double.

(** ** clients/base.ts *)

Module Base.

(** [RATE_LIMITS.pro.requestsPerSecond]. *)
Definition RATE_LIMITS_pro_requestsPerSecond : nat := 20.

Record RetryConfig := {
  maxRetries : nat;
  baseDelay : Double.number;
  maxDelay : Double.number;
  retryOn : list Z
}.

Definition DEFAULT_RETRY_CONFIG : RetryConfig :=
  {| maxRetries := 3; baseDelay := Double.Num 1000;
     maxDelay := Double.Num 10000;
     retryOn := [429; 500; 502; 503; 504] |}.

Record MeshyBaseClient := {
  apiKey : string;
  baseUrl : string;
  retryConfig : RetryConfig
}.

Definition rateLimitWindow : Z := 1000.

Section Client.

Variable E : Env.
Variable this : MeshyBaseClient.

(** [this.requestTimes = value]. *)
Definition set_requestTimes (value : list Z) : M unit :=
  fun w =>
    (inr tt, {| clock := clock w; requestTimes := value;
                fetched := fetched w; drawn := drawn w; trace := trace w |}).

(** [handleErrorResponse(response, attempt)]: reads the body, extracts a
    message and throws the error of the status; it never returns. *)
Definition handleErrorResponse (response : Response) (attempt : nat)
  : M Empty_set :=
  let body := text response in
  let errorData : JsObject :=
    match json response with
    | Some data => data
    | None => {[ "message" := body ]}
    end in
  let message := or_else (errorData !! "message")
                         ("HTTP " +:+ pretty (status response)) in
  let st := status response in
  if decide (st = 400) then
    throw (MeshyError ("Bad Request: " +:+ message) 400 (Some errorData))
  else if decide (st = 401) then
    throw (MeshyAuthError ("Unauthorized: " +:+ message))
  else if decide (st = 402) then
    throw (MeshyPaymentError ("Payment Required: " +:+ message))
  else if decide (st = 403) then
    throw (MeshyError
             ("Forbidden: " +:+ message +:+ ". Check CORS if calling from browser.")
             403 (Some errorData))
  else if decide (st = 404) then
    throw (MeshyError ("Not Found: " +:+ message) 404 (Some errorData))
  else if decide (st = 429) then
    if (attempt <? maxRetries (retryConfig this))%nat then
      let* _ := console_warn "Rate limited. Will retry..." in
      throw (MeshyRateLimitError message (Some errorData))
    else
      throw (MeshyRateLimitError ("Rate Limit Exceeded: " +:+ message)
                                 (Some errorData))
  else if decide (st = 500 \/ st = 502 \/ st = 503 \/ st = 504) then
    if (attempt <? maxRetries (retryConfig this))%nat then
      throw (MeshyError ("Server Error: " +:+ message) st (Some errorData))
    else
      throw (MeshyError ("Server Error (final): " +:+ message) st
                        (Some errorData))
  else
    throw (MeshyError ("Unexpected error: " +:+ message) st (Some errorData)).

(** [checkRateLimit()]: prunes the window at the time of the check and, when
    the window is full, sleeps until its oldest entry leaves it. *)
Definition checkRateLimit : M unit :=
  let* _ := emit EAdmit in
  let* now := Date_now in
  let* times := (fun w => (inr (requestTimes w), w)) in
  let kept := filter (fun time => now - time < rateLimitWindow) times in
  let* _ := set_requestTimes kept in
  let requestsInWindow := length kept in
  if (RATE_LIMITS_pro_requestsPerSecond <=? requestsInWindow)%nat then
    match kept !! 0%nat with
    | Some oldestRequest =>
        let waitTime := rateLimitWindow - (now - oldestRequest) in
        if decide (waitTime > 0) then
          let* _ := console_warn
            ("Rate limit approaching, waiting " +:+ pretty waitTime +:+ "ms...") in
          sleep (waitTime + 100)
        else ret tt
    | None => ret tt
    end
  else ret tt.

(** [calculateBackoff(attempt)]: exponential backoff with jitter, in the
    arithmetic of doubles; [0.3] is the double nearest to 3/10, and the
    draw is the value of a double. *)
Definition calculateBackoff (attempt : nat) : M Double.integral :=
  let exponential :=
    Double.mul (baseDelay (retryConfig this)) (Double.Math_pow_2 attempt) in
  let* rnd := Math_random E in
  let jitter :=
    Double.mul (Double.mul (Double.Num rnd) (Double.round (3 # 10)))
               exponential in
  let delay :=
    Double.Math_min (Double.add exponential jitter)
                    (maxDelay (retryConfig this)) in
  ret (Double.Math_floor delay).

(** The retry loop of [request]: [remaining] iterations are left, the next
    one has index [attempt]. *)
Fixpoint request_loop (url : string) (remaining attempt : nat)
    (lastError : option Err) : M JsObject :=
  match remaining with
  | O => throw (default (Error "Request failed after retries") lastError)
  | S remaining' =>
      try_catch
        (let* response := fetch E url in
         let* _ := (if negb (ok response)
                    then let* never := handleErrorResponse response attempt in
                         match never : Empty_set with end
                    else ret tt) in
         let* now := Date_now in
         let* _ := emit (EPush now) in
         let* times := (fun w => (inr (requestTimes w), w)) in
         let* _ := set_requestTimes (times ++ [now]) in
         response_json response)
        (fun error =>
           let* _ := (if (attempt <? maxRetries (retryConfig this))%nat
                      then let* delay := calculateBackoff attempt in
                           let* _ := console_warn
                             ("Retry attempt " +:+ pretty (S attempt) +:+ "/"
                              +:+ pretty (maxRetries (retryConfig this))
                              +:+ " after " +:+ Double.Number_toString delay
                              +:+ "ms") in
                           sleep (Double.timeout delay)
                      else ret tt) in
           request_loop url remaining' (S attempt) (Some error))
  end.

(** [request(endpoint, options)]: one admission check, then the loop
    [for (attempt = 0; attempt <= maxRetries; attempt++)]. *)
Definition request (endpoint : string) : M JsObject :=
  let* _ := checkRateLimit in
  let url := baseUrl this +:+ endpoint in
  request_loop url (S (maxRetries (retryConfig this))) 0 None.

End Client.

End Base.

(** ** clients/text-to-3d.ts *)

Module TextTo3D.
Import Base.

Section Client.

Variable E : Env.
Variable this : MeshyBaseClient.

(** The loop of [getTask]: [remaining] iterations are left, the next one has
    index [attempt]; [maxRetries] is 3 when [retryOn404] holds, else 0. *)
Fixpoint getTask_loop (taskId : string) (maxRetries remaining attempt : nat)
  : M JsObject :=
  match remaining with
  | O => throw (Error ("Task not found after " +:+ pretty (S maxRetries)
                       +:+ " attempts"))
  | S remaining' =>
      let* response := fetch E (baseUrl this +:+ "/text-to-3d/" +:+ taskId) in
      if ok response then response_json response
      else if bool_decide (status response = 404) && (attempt <? maxRetries)%nat then
        let waitMs := 2000 * (Z.of_nat attempt + 1) in
        let* _ := sleep waitMs in
        getTask_loop taskId maxRetries remaining' (S attempt)
      else
        let error := text response in
        throw (Error ("Failed to get task: " +:+ pretty (status response)
                      +:+ " - " +:+ error))
  end.

(** [getTask(taskId, retryOn404 = true)]. *)
Definition getTask (taskId : string) (retryOn404 : bool) : M JsObject :=
  let maxRetries := if retryOn404 then 3%nat else 0%nat in
  getTask_loop taskId maxRetries (S maxRetries) 0.

(** [pollTask(taskId, maxRetries = 60, intervalMs = 10000)]: the loop
    [for (i = 0; i < maxRetries; i++)], by the iterations left. *)
Fixpoint pollTask (taskId : string) (maxRetries : nat) (intervalMs : Z)
  : M JsObject :=
  match maxRetries with
  | O => throw (Error ("Task " +:+ taskId +:+ " timed out"))
  | S maxRetries' =>
      let* task := getTask taskId true in
      let status := task !! "status" in
      if decide (status = Some "SUCCEEDED") then ret task
      else if decide (status = Some "FAILED" \/ status = Some "EXPIRED") then
        throw (Error ("Task " +:+ taskId +:+ " failed with status: "
                      +:+ default "undefined" status))
      else
        let* _ := sleep intervalMs in
        pollTask taskId maxRetries' intervalMs
  end.

End Client.

End TextTo3D.

(** ** clients/animations.ts *)

Module Animations.
Import Base.

Section Client.

Variable E : Env.
Variable this : MeshyBaseClient.

(** [getAnimationTask(taskId)]. *)
Definition getAnimationTask (taskId : string) : M JsObject :=
  request E this ("/animations/" +:+ taskId).

(** [pollAnimationTask(taskId, maxRetries = 60, intervalMs = 10000)]. *)
Fixpoint pollAnimationTask (taskId : string) (maxRetries : nat)
    (intervalMs : Z) : M JsObject :=
  match maxRetries with
  | O => throw (Error ("Animation task " +:+ taskId +:+ " timed out"))
  | S maxRetries' =>
      let* task := getAnimationTask taskId in
      let status := task !! "status" in
      if decide (status = Some "SUCCEEDED") then ret task
      else if decide (status = Some "FAILED" \/ status = Some "CANCELED") then
        throw (Error ("Animation task " +:+ taskId +:+ " failed: "
                      +:+ default "undefined" status))
      else
        let* _ := sleep intervalMs in
        pollAnimationTask taskId maxRetries' intervalMs
  end.

End Client.

End Animations.

(** ** clients/retexture.ts *)

Module Retexture.
Import Base.

Record RetextureTaskParams := {
  input_task_id : option string;
  model_url : option string;
  text_style_prompt : option string;
  image_style_url : option string;
  ai_model : option string;
  enable_original_uv : option bool;
  enable_pbr : option bool
}.

(** A value of the request body: [string | boolean | undefined]. *)
Inductive BodyValue :=
| VString (s : string)
| VBool (b : bool)
| VUndefined.

Definition of_property (p : option string) : BodyValue :=
  match p with
  | Some s => VString s
  | None => VUndefined
  end.

(** The options handed to the request callback; [body] is the object that
    the code passes through [JSON.stringify]. *)
Record RequestInit := {
  method : string;
  headers : list (string * string);
  body : gmap string BodyValue
}.

Record RetextureTask := {
  id : string;
  task_status : string;
  progress : Z;
  created_at : Z
}.

Section Client.

Variable this : MeshyBaseClient.

(** [createRetextureTask(params, makeRequestWithRetry)]. *)
Definition createRetextureTask (params : RetextureTaskParams)
    (makeRequestWithRetry : string -> RequestInit -> M JsObject)
  : M RetextureTask :=
  if falsy (input_task_id params) && falsy (model_url params) then
    throw (Error "Either input_task_id or model_url is required")
  else if falsy (text_style_prompt params) && falsy (image_style_url params) then
    throw (Error "Either text_style_prompt or image_style_url is required")
  else
    let requestBody : gmap string BodyValue := ∅ in
    let requestBody :=
      if negb (falsy (input_task_id params))
      then <["input_task_id" := of_property (input_task_id params)]> requestBody
      else <["model_url" := of_property (model_url params)]> requestBody in
    let requestBody :=
      if negb (falsy (text_style_prompt params))
      then <["text_style_prompt" := of_property (text_style_prompt params)]> requestBody
      else <["image_style_url" := of_property (image_style_url params)]> requestBody in
    let requestBody :=
      if negb (falsy (ai_model params))
      then <["ai_model" := of_property (ai_model params)]> requestBody
      else requestBody in
    let requestBody :=
      match enable_original_uv params with
      | Some b => <["enable_original_uv" := VBool b]> requestBody
      | None => requestBody
      end in
    let requestBody :=
      match enable_pbr params with
      | Some b => <["enable_pbr" := VBool b]> requestBody
      | None => requestBody
      end in
    let* data := makeRequestWithRetry (baseUrl this +:+ "/retexture")
      {| method := "POST";
         headers := [("Authorization", "Bearer " +:+ apiKey this);
                     ("Content-Type", "application/json")];
         body := requestBody |} in
    let taskId :=
      if falsy (data !! "result") then data !! "id" else data !! "result" in
    if falsy taskId then
      throw (Error "No task ID returned from createRetextureTask")
    else
      let* now := Date_now in
      ret {| id := default "" taskId; task_status := "PENDING"; progress := 0;
             created_at := now |}.

End Client.

End Retexture.

(** ** Concurrent use of one client

    [request] suspends at every [await], so several calls on one client
    interleave: between the admission check of a call and the
    [requestTimes.push] of its successful attempt, other calls run theirs.
    A schedule lists these steps in the order the event loop runs them. *)

Module Schedule.
Import Base.

Inductive event :=
| Admission (call : nat) (now : Z)
| Completion (call : nat) (time : Z)
| Failure (call : nat).

(** The client between two steps: its window, the calls past their admission
    check with the time at which each woke from it, and the time of the
    latest step. *)
Record state := {
  times : list Z;
  inflight : gmap nat Z;
  last : Z
}.

(** A fresh client at time [t0]. *)
Definition init (t0 : Z) : state :=
  {| times := []; inflight := ∅; last := t0 |}.

(** One step; [None] when the code cannot take it: time runs backwards, the
    call is not in the right phase, or it would push before its admission
    check let it go. *)
Definition step (s : state) (e : event) : option state :=
  match e with
  | Admission call now =>
      if decide (last s <= now /\ inflight s !! call = None) then
        let w := snd (checkRateLimit
                        {| clock := now; requestTimes := times s;
                           fetched := 0; drawn := 0; trace := [] |}) in
        Some {| times := requestTimes w;
                inflight := <[call := clock w]> (inflight s);
                last := now |}
      else None
  | Completion call time =>
      match inflight s !! call with
      | Some woke =>
          if decide (woke <= time /\ last s <= time) then
            Some {| times := times s ++ [time];
                    inflight := delete call (inflight s);
                    last := time |}
          else None
      | None => None
      end
  | Failure call =>
      match inflight s !! call with
      | Some _ => Some {| times := times s;
                          inflight := delete call (inflight s);
                          last := last s |}
      | None => None
      end
  end.

Fixpoint run (sched : list event) (s : state) : option state :=
  match sched with
  | [] => Some s
  | e :: rest =>
      match step s e with
      | Some s' => run rest s'
      | None => None
      end
  end.

(** The entries of the window newer than one second at time [now]. *)
Definition in_window (now : Z) (window : list Z) : nat :=
  length (filter (fun time => now - time < rateLimitWindow) window).

(** Calls that do not overlap: a call is admitted only when the previous one
    has completed or failed. [busy] is the call in progress. *)
Fixpoint one_at_a_time (busy : option nat) (sched : list event) : bool :=
  match sched with
  | [] => true
  | Admission call _ :: rest =>
      match busy with
      | None => one_at_a_time (Some call) rest
      | Some _ => false
      end
  | Completion call _ :: rest | Failure call :: rest =>
      match busy with
      | Some call' => bool_decide (call = call') && one_at_a_time None rest
      | None => false
      end
  end.

(** What holds between the steps of calls that do not overlap: with no call
    in progress the window is within the ceiling; with one in progress the
    pruned window is, and if it is full the call sleeps until its oldest
    entry is a second old. *)
Definition settled (busy : option nat) (s : state) : Prop :=
  match busy with
  | None =>
      inflight s = ∅
      /\ (in_window (last s) (times s) <= RATE_LIMITS_pro_requestsPerSecond)%nat
  | Some call =>
      exists woke,
        inflight s = {[ call := woke ]}
        /\ last s <= woke
        /\ (length (times s) <= RATE_LIMITS_pro_requestsPerSecond)%nat
        /\ ((RATE_LIMITS_pro_requestsPerSecond <= length (times s))%nat ->
            exists oldest rest,
              times s = oldest :: rest /\ oldest + rateLimitWindow <= woke)
  end.

End Schedule.

(** ** Reading traces *)

Definition is_admit (e : Effect) : bool :=
  match e with EAdmit => true | _ => false end.

Definition is_fetch (e : Effect) : bool :=
  match e with EFetch _ => true | _ => false end.

Definition is_sleep (e : Effect) : bool :=
  match e with ESleep _ => true | _ => false end.

Definition is_push (e : Effect) : bool :=
  match e with EPush _ => true | _ => false end.

Definition count (p : Effect -> bool) (tr : list Effect) : nat :=
  length (List.filter p tr).

(** Admission checks, network attempts, sleeps and window entries of a
    trace. *)
Definition admits : list Effect -> nat := count is_admit.
Definition attempts : list Effect -> nat := count is_fetch.
Definition sleeps : list Effect -> nat := count is_sleep.
Definition pushes : list Effect -> nat := count is_push.

(** Every network attempt of the trace has an admission check of its own
    before it: [armed] tells whether a check happened since the last
    attempt. *)
Fixpoint admitted_before_each_attempt (armed : bool) (tr : list Effect)
  : bool :=
  match tr with
  | [] => true
  | EAdmit :: rest => admitted_before_each_attempt true rest
  | EFetch _ :: rest => armed && admitted_before_each_attempt false rest
  | _ :: rest => admitted_before_each_attempt armed rest
  end.

(** The delays of the sleeps of a trace, in order. *)
Definition sleep_log (tr : list Effect) : list Z :=
  omap (fun e => match e with ESleep ms => Some ms | _ => None end) tr.

(** The world with more effects logged. *)
Definition logged (tr : list Effect) (w : World) : World :=
  {| clock := clock w; requestTimes := requestTimes w;
     fetched := fetched w; drawn := drawn w; trace := trace w ++ tr |}.

(** What a step that is neither an admission check nor a window push leaves
    as it was. *)
Definition preserves (w w' : World) : Prop :=
  requestTimes w' = requestTimes w
  /\ exists tr, trace w' = trace w ++ tr /\ admits tr = 0%nat /\ pushes tr = 0%nat.

(** Computations that perform no admission check. *)
Definition quiet {A} (m : M A) : Prop :=
  forall w, exists tr, trace (snd (m w)) = trace w ++ tr /\ admits tr = 0%nat.

(** Computations during which the clock does not run backwards. *)
Definition steady {A} (m : M A) : Prop :=
  forall w, clock w <= clock (snd (m w)).

(** Calls of [request] one after the other: each starts when the previous one
    has returned and [idle] milliseconds have passed. *)
Fixpoint run_requests (E : Env) (this : Base.MeshyBaseClient)
    (calls : list (nat * string)) (w : World) : World :=
  match calls with
  | [] => w
  | (idle, endpoint) :: rest =>
      run_requests E this rest
        (snd (Base.request E this endpoint (snd (advance (Z.of_nat idle) w))))
  end.

(** ** Observations of a poller *)

Section Polling.

Variable fetchTask : M JsObject.
Variable terminal : option string -> Prop.
Variable intervalMs : Z.

(** [waits n w w']: from [w] the poller goes through [n] ticks and reaches
    [w']; in each, the status fetch resolves with a task whose status is not
    terminal for this poller, and the poller sleeps for the interval. *)
Inductive waits : nat -> World -> World -> Prop :=
| waits_done w : waits 0 w w
| waits_tick n w task w1 w2 :
    fetchTask w = (inr task, w1) ->
    ~ terminal (task !! "status") ->
    waits n (snd (sleep intervalMs w1)) w2 ->
    waits (S n) w w2.

End Polling.

(** The statuses on which [pollTask] stops polling. *)
Definition terminal_text_to_3d (status : option string) : Prop :=
  status = Some "SUCCEEDED" \/ status = Some "FAILED" \/ status = Some "EXPIRED".

(** The statuses on which [pollAnimationTask] stops polling. *)
Definition terminal_animation (status : option string) : Prop :=
  status = Some "SUCCEEDED" \/ status = Some "FAILED" \/ status = Some "CANCELED".

(** ** Sample runs *)

Module Samples.
Import Base.

(** A client as the endpoint classes construct it: the default retry
    configuration. *)
Definition meshy : MeshyBaseClient :=
  {| apiKey := "msy_key"; baseUrl := "https://api.meshy.ai/openapi/v2";
     retryConfig := DEFAULT_RETRY_CONFIG |}.

(** A client that made no request yet, at time 0. *)
Definition fresh : World :=
  {| clock := 0; requestTimes := []; fetched := 0; drawn := 0; trace := [] |}.

(** A network that answers with [replies] in turn and with [rest] ever
    after, 40 ms after each request; every random draw is 1/2. *)
Definition scripted (replies : list FetchResult) (rest : FetchResult) : Env :=
  {| net := fun i => default rest (replies !! i);
     latency := fun _ => 40%nat;
     random := fun _ => (1 # 2)%Q |}.

Definition quoted (s : string) : string :=
  String (Ascii.ascii_of_nat 34) s +:+ String (Ascii.ascii_of_nat 34) "".

Fixpoint members (props : list (string * string)) : string :=
  match props with
  | [] => ""
  | [(k, v)] => quoted k +:+ ":" +:+ quoted v
  | (k, v) :: rest => quoted k +:+ ":" +:+ quoted v +:+ "," +:+ members rest
  end.

(** A reply whose body is the JSON object with the given properties. *)
Definition object_reply (status : Z) (props : list (string * string))
  : FetchResult :=
  Reply {| status := status; text := "{" +:+ members props +:+ "}";
           json := Some (list_to_map props) |}.

(** A reply whose body is plain text, not JSON. *)
Definition text_reply (status : Z) (text : string) : FetchResult :=
  Reply {| status := status; text := text; json := None |}.



(** The server rejects the key on every request. *)
Definition always_401 : Env := scripted [] (text_reply 401 "Invalid API key").

(** A network that is down, and a random source that always draws
    [draw]. *)
Definition drawing (draw : Q) : Env :=
  {| net := fun _ => NetworkFailure "ECONNREFUSED";
     latency := fun _ => 0%nat;
     random := fun _ => draw |}.

(** A client configured with a base delay of 1000.5 ms. *)
Definition half_a_millisecond : MeshyBaseClient :=
  {| apiKey := "msy_key"; baseUrl := "https://api.meshy.ai/openapi/v2";
     retryConfig := {| maxRetries := 3; baseDelay := Double.Num (2001 # 2);
                       maxDelay := Double.Num 10000;
                       retryOn := [429; 500; 502; 503; 504] |} |}.

(** Two rate-limit replies, then the task. *)
Definition two_429_then_200 : Env :=
  scripted [text_reply 429 "slow down"; text_reply 429 "slow down"]
           (object_reply 200 [("id", "t1"); ("status", "PENDING")]).

(** Two rate-limit replies, then replies with status 200 and an empty
    body, as a DELETE is answered. *)
Definition two_429_then_empty : Env :=
  scripted [text_reply 429 "slow down"; text_reply 429 "slow down"]
           (text_reply 200 "").

Definition pending_then_failed : Env :=
  scripted [object_reply 200 [("id", "t1"); ("status", "PENDING")]]
           (object_reply 200 [("id", "t1"); ("status", "FAILED")]).

Definition always_canceled : Env :=
  scripted [] (object_reply 200 [("id", "t1"); ("status", "CANCELED")]).

Definition always_pending : Env :=
  scripted [] (object_reply 200 [("id", "t1"); ("status", "PENDING")]).

Definition always_in_progress : Env :=
  scripted [] (object_reply 200 [("id", "t1"); ("status", "IN_PROGRESS")]).



(** A rate-limit reply and a server error, with plain-text bodies. *)
Definition slow_down : Response :=
  {| status := 429; text := "slow down"; json := None |}.

Definition busy : Response :=
  {| status := 503; text := "busy"; json := None |}.

(** Retexture parameters that name no input model. *)
Definition no_input : Retexture.RetextureTaskParams :=
  {| Retexture.input_task_id := None; Retexture.model_url := None;
     Retexture.text_style_prompt := Some "green moss";
     Retexture.image_style_url := None; Retexture.ai_model := None;
     Retexture.enable_original_uv := None; Retexture.enable_pbr := None |}.

(** A request callback that leaves a mark in the trace when it runs. *)
Definition marking_callback (url : string) (_ : Retexture.RequestInit)
  : M JsObject :=
  let* _ := emit (EFetch url) in ret ∅.

End Samples.

(** ** clients/base.ts: construction *)

Module Construction.
Import Base.










End Construction.

(** ** clients/text-to-3d.ts: creating and deleting tasks *)

Module TextTo3DTasks.
Import Base.

(** A value of a request body. *)
Inductive Value :=
| VStr (s : string)
| VNum (n : Z)
| VBool (b : bool)
| VUndefined.

(** [boolean | 'strict']. *)
Inductive Moderation :=
| ModerationFlag (b : bool)
| ModerationStrict.

Record CreateTaskParams := {
  text_prompt : string;
  art_style : option string;
  ai_model : option string;
  topology : option string;
  target_polycount : option Z;
  should_remesh : option bool;
  symmetry_mode : option string;
  is_a_t_pose : option bool;
  moderation : option Moderation
}.

Record RefineParams := {
  enable_pbr : option bool;
  texture_prompt : option string;
  refine_ai_model : option string
}.

(** The options handed to the request callback; [body] is the object that
    the code passes through [JSON.stringify]. *)
Record RequestInit := {
  method : string;
  headers : list (string * string);
  body : list (string * Value)
}.

(** The task a create method resolves with; [id] is [undefined] when the
    reply carried none and the method did not check. *)
Record MeshyTask := {
  id : option string;
  task_status : string;
  progress : Z;
  created_at : string;
  finished_at : Z
}.

(** [a || b] on two properties. *)
Definition or_property (a b : option string) : option string :=
  if falsy a then b else a.

(** [n || d] on a number: 0 and [undefined] are falsy. *)
Definition or_number (n : option Z) (d : Z) : Z :=
  match n with
  | Some v => if decide (v = 0) then d else v
  | None => d
  end.

(** [b || false]. *)
Definition or_false (b : option bool) : bool := default false b.

(** A body value that [JSON.stringify] keeps and that is not falsy, or is a
    boolean. *)
Definition filled (v : Value) : bool :=
  match v with
  | VStr s => negb (bool_decide (s = ""))
  | VNum n => negb (bool_decide (n = 0))
  | VBool _ => true
  | VUndefined => false
  end.

Section Client.

Variable E : Env.
Variable this : MeshyBaseClient.

(** [createPreviewTask(params, makeRequestWithRetry)]. *)
Definition createPreviewTask (params : CreateTaskParams)
    (makeRequestWithRetry : string -> RequestInit -> M JsObject)
  : M MeshyTask :=
  let* data := makeRequestWithRetry (baseUrl this +:+ "/text-to-3d")
    {| method := "POST";
       headers := [("Authorization", "Bearer " +:+ apiKey this);
                   ("Content-Type", "application/json")];
       body :=
         [("mode", VStr "preview");
          ("prompt", VStr (text_prompt params));
          ("art_style", VStr (or_else (art_style params) "realistic"));
          ("ai_model", VStr (or_else (ai_model params) "meshy-5"));
          ("topology", VStr (or_else (topology params) "triangle"));
          ("target_polycount", VNum (or_number (target_polycount params) 30000));
          ("should_remesh",
           VBool (negb (bool_decide (should_remesh params = Some false))));
          ("symmetry_mode", VStr (or_else (symmetry_mode params) "auto"));
          ("is_a_t_pose", VBool (or_false (is_a_t_pose params)));
          ("moderation",
           match moderation params with
           | Some ModerationStrict => VStr "strict"
           | Some (ModerationFlag b) => VBool b
           | None => VBool false
           end)] |} in
  let taskId := or_property (data !! "result") (data !! "id") in
  if falsy taskId then
    throw (Error "No task ID returned from createPreviewTask")
  else
    let* _ := sleep 1000 in
    let* now := Date_now in
    ret {| id := taskId; task_status := "PENDING"; progress := 0;
           created_at := pretty now; finished_at := 0 |}.

(** [createRefineTask(previewTaskId, makeRequestWithRetry, params?)]. *)
Definition createRefineTask (previewTaskId : string)
    (makeRequestWithRetry : string -> RequestInit -> M JsObject)
    (params : option RefineParams) : M MeshyTask :=
  let* data := makeRequestWithRetry (baseUrl this +:+ "/text-to-3d")
    {| method := "POST";
       headers := [("Authorization", "Bearer " +:+ apiKey this);
                   ("Content-Type", "application/json")];
       body :=
         [("mode", VStr "refine");
          ("preview_task_id", VStr previewTaskId);
          ("enable_pbr", VBool (or_false (params ≫= enable_pbr)));
          ("ai_model", VStr (or_else (params ≫= refine_ai_model) "meshy-5"));
          ("texture_prompt",
           match params ≫= texture_prompt with
           | Some s => VStr s
           | None => VUndefined
           end)] |} in
  let* now := Date_now in
  ret {| id := or_property (data !! "result") (data !! "id");
         task_status := "PENDING"; progress := 0;
         created_at := pretty now; finished_at := 0 |}.

(** [deleteTask(taskId)]. *)
Definition deleteTask (taskId : string) : M unit :=
  let* response := fetch E (baseUrl this +:+ "/text-to-3d/" +:+ taskId) in
  if negb (ok response) then
    let error := text response in
    throw (Error ("Failed to delete task " +:+ taskId +:+ ": "
                  +:+ pretty (status response) +:+ " - " +:+ error))
  else ret tt.

End Client.

End TextTo3DTasks.

(** ** clients/animations.ts: deleting tasks *)

Module AnimationTasks.
Import Base.

Section Client.

Variable E : Env.
Variable this : MeshyBaseClient.

(** [deleteAnimationTask(taskId)]. *)
Definition deleteAnimationTask (taskId : string) : M unit :=
  let* _ := request E this ("/animations/" +:+ taskId) in
  ret tt.

End Client.

End AnimationTasks.

(** ** clients/retexture.ts: status, polling and deletion *)

Module RetextureTasks.
Import Base.

Section Client.

Variable E : Env.
Variable this : MeshyBaseClient.

(** [getRetextureTask(taskId)]. *)
Definition getRetextureTask (taskId : string) : M JsObject :=
  request E this ("/retexture/" +:+ taskId).

(** [pollRetextureTask(taskId, maxRetries = 60, intervalMs = 10000)]. *)
Fixpoint pollRetextureTask (taskId : string) (maxRetries : nat)
    (intervalMs : Z) : M JsObject :=
  match maxRetries with
  | O => throw (Error ("Retexture task " +:+ taskId +:+ " timed out"))
  | S maxRetries' =>
      let* task := getRetextureTask taskId in
      let status := task !! "status" in
      if decide (status = Some "SUCCEEDED") then ret task
      else if decide (status = Some "FAILED" \/ status = Some "EXPIRED") then
        throw (Error ("Retexture task " +:+ taskId +:+ " failed: "
                      +:+ default "undefined" status))
      else
        let* _ := sleep intervalMs in
        pollRetextureTask taskId maxRetries' intervalMs
  end.

(** [deleteRetextureTask(taskId)]. *)
Definition deleteRetextureTask (taskId : string) : M unit :=
  let* _ := request E this ("/retexture/" +:+ taskId) in
  ret tt.

End Client.

End RetextureTasks.

(** ** clients/rigging.ts *)

Module Rigging.
Import Base.

Section Client.

Variable E : Env.
Variable this : MeshyBaseClient.

(** [getRiggingTask(taskId)]. *)
Definition getRiggingTask (taskId : string) : M JsObject :=
  request E this ("/rigging/" +:+ taskId).

(** [pollRiggingTask(taskId, maxRetries = 60, intervalMs = 10000)]. *)
Fixpoint pollRiggingTask (taskId : string) (maxRetries : nat)
    (intervalMs : Z) : M JsObject :=
  match maxRetries with
  | O => throw (Error ("Rigging task " +:+ taskId +:+ " timed out"))
  | S maxRetries' =>
      let* task := getRiggingTask taskId in
      let status := task !! "status" in
      if decide (status = Some "SUCCEEDED") then ret task
      else if decide (status = Some "FAILED" \/ status = Some "CANCELED") then
        throw (Error ("Rigging task " +:+ taskId +:+ " failed: "
                      +:+ default "undefined" status))
      else
        let* _ := sleep intervalMs in
        pollRiggingTask taskId maxRetries' intervalMs
  end.

(** [deleteRiggingTask(taskId)]. *)
Definition deleteRiggingTask (taskId : string) : M unit :=
  let* response := fetch E (baseUrl this +:+ "/rigging/" +:+ taskId) in
  if negb (ok response) then
    let error := text response in
    throw (Error ("Failed to delete rigging task: "
                  +:+ pretty (status response) +:+ " - " +:+ error))
  else ret tt.

End Client.

End Rigging.

(** ** index.ts *)

Module ModelSynth.
Import Base Construction TextTo3DTasks.

Record ModelSynth := {
  text3d : MeshyBaseClient;
  rigging : MeshyBaseClient;
  retexture : MeshyBaseClient;
  animations : MeshyBaseClient
}.



Record CharacterOptions := {
  character_prompt : string;
  character_style : option string;
  rigged : option bool;
  character_animations : option (list string);
  character_polycount : option Z
}.

Record PropOptions := {
  prop_prompt : string;
  prop_style : option string;
  variants : option (list string);
  prop_polycount : option Z
}.

Record CollectibleOptions := {
  collectible_prompt : string;
  collectible_style : option string;
  collectible_polycount : option Z
}.

Section Synth.

Variable E : Env.
Variable this : ModelSynth.

(** The [makeRequest] closure of [generateModel]. *)
Definition makeRequest (url : string) (init : RequestInit) : M JsObject :=
  let* response := fetch E url in
  if negb (ok response) then
    throw (Error ("Request failed: " +:+ pretty (status response)))
  else response_json response.

(** [generateModel(options)]. *)
Definition generateModel (prompt style : string) (polycount : Z)
    (tPose : option bool) : M JsObject :=
  let* previewTask :=
    createPreviewTask (text3d this)
      {| text_prompt := prompt; art_style := Some style; ai_model := None;
         topology := None; target_polycount := Some polycount;
         should_remesh := None; symmetry_mode := None;
         is_a_t_pose := tPose; moderation := None |}
      makeRequest in
  TextTo3D.pollTask E (text3d this) (default "undefined" (id previewTask))
                    60 10000.

(** [character(options)]. *)
Definition character (options : CharacterOptions) : M JsObject :=
  generateModel (character_prompt options)
                (or_else (character_style options) "cartoon")
                (or_number (character_polycount options) 8000)
                (rigged options).

(** [prop(options)]. *)
Definition prop (options : PropOptions) : M JsObject :=
  generateModel (prop_prompt options)
                (or_else (prop_style options) "realistic")
                (or_number (prop_polycount options) 5000)
                None.

(** [collectible(options)]. *)
Definition collectible (options : CollectibleOptions) : M JsObject :=
  generateModel (collectible_prompt options)
                (or_else (collectible_style options) "cartoon")
                (or_number (collectible_polycount options) 2000)
                None.

End Synth.

End ModelSynth.

(** ** More readings of runs *)

(** Whether the network answers request [i] with a 2xx reply. *)
Definition ok_reply (E : Env) (i : nat) : bool :=
  match net E i with
  | Reply r => ok r
  | NetworkFailure _ => false
  end.

(** The 2xx replies among the [n] replies from [from] on. *)
Fixpoint ok_replies (E : Env) (from n : nat) : nat :=
  match n with
  | O => 0
  | S n' => ((if ok_reply E from then 1 else 0) + ok_replies E (S from) n')%nat
  end.

(** The 404 replies in a row from reply [from] on, counted up to [limit]. *)
Fixpoint leading_404 (E : Env) (from limit : nat) : nat :=
  match limit with
  | O => 0
  | S limit' =>
      match net E from with
      | Reply r =>
          if bool_decide (status r = 404)
          then S (leading_404 E (S from) limit')
          else 0
      | NetworkFailure _ => 0
      end
  end.

(** The URLs a trace fetched, in order. *)
Definition fetch_log (tr : list Effect) : list string :=
  omap (fun e => match e with EFetch url => Some url | _ => None end) tr.

(** The statuses on which [pollRetextureTask] stops polling. *)
Definition terminal_retexture (status : option string) : Prop :=
  status = Some "SUCCEEDED" \/ status = Some "FAILED" \/ status = Some "EXPIRED".

(** The statuses on which [pollRiggingTask] stops polling. *)
Definition terminal_rigging (status : option string) : Prop :=
  status = Some "SUCCEEDED" \/ status = Some "FAILED" \/ status = Some "CANCELED".

(** What a poll through [request] has spent after [ticks] status fetches:
    one admission check for each, and for each between one and
    [maxRetries + 1] network attempts. *)
Definition spent (this : Base.MeshyBaseClient) (ticks : nat) (w w' : World)
  : Prop :=
  admits (trace w') = (admits (trace w) + ticks)%nat
  /\ (fetched w + ticks <= fetched w')%nat
  /\ (fetched w'
      <= fetched w + ticks * S (Base.maxRetries (Base.retryConfig this)))%nat.

(** A poll resolves with nothing but a task whose status is [SUCCEEDED]. *)
Definition resolves_succeeded (outcome : Err + JsObject) : Prop :=
  match outcome with
  | inr task => task !! "status" = Some "SUCCEEDED"
  | inl _ => True
  end.

(** ** More sample runs *)

Module Scenarios.
Import Base Samples.

(** A client of the v1 endpoints, as [RiggingAPI] and the like construct
    it. *)
Definition meshy_v1 : MeshyBaseClient :=
  {| apiKey := "msy_key"; baseUrl := "https://api.meshy.ai/openapi/v1";
     retryConfig := DEFAULT_RETRY_CONFIG |}.

Definition pending_then_succeeded : Env :=
  scripted [object_reply 200 [("id", "t1"); ("status", "PENDING")]]
           (object_reply 200 [("id", "t1"); ("status", "SUCCEEDED")]).

Definition pending_then_canceled : Env :=
  scripted [object_reply 200 [("id", "t1"); ("status", "PENDING")]]
           (object_reply 200 [("id", "t1"); ("status", "CANCELED")]).

(** The server answers every request with [204 No Content]. *)
Definition no_content : Env := scripted [] (text_reply 204 "").

(** Retexture parameters that name both inputs and both styles. *)
Definition both_inputs : Retexture.RetextureTaskParams :=
  {| Retexture.input_task_id := Some "preview_1";
     Retexture.model_url := Some "https://example.com/model.glb";
     Retexture.text_style_prompt := Some "green moss";
     Retexture.image_style_url := Some "https://example.com/moss.png";
     Retexture.ai_model := None;
     Retexture.enable_original_uv := None; Retexture.enable_pbr := Some true |}.

(** A synthesizer whose four clients are the ones that the constructors
    of the client classes make for the key ['msy_key']. *)
Definition synth : ModelSynth.ModelSynth :=
  {| ModelSynth.text3d := meshy; ModelSynth.rigging := meshy_v1;
     ModelSynth.retexture := meshy_v1; ModelSynth.animations := meshy_v1 |}.

(** A rigged character, as the package's example asks for one. *)
Definition otter : ModelSynth.CharacterOptions :=
  {| ModelSynth.character_prompt := "cute otter wearing adventure vest";
     ModelSynth.character_style := Some "cartoon";
     ModelSynth.rigged := Some true;
     ModelSynth.character_animations := Some ["idle"; "walk"];
     ModelSynth.character_polycount := None |}.

(** The server turns down the request that creates a task. *)
Definition rejects_prompt : Env := scripted [] (text_reply 429 "slow down").

End Scenarios.

(** * Properties *)

Import Base Samples.

(** ** The request executor *)

(** The backoff of the default configuration for a draw of 1/2: 1150, 2300,
    4600 and 9200 ms, then the clamp at 10000 ms. *)
Example calculateBackoff_default :
  map (fun attempt => fst (calculateBackoff always_401 meshy attempt fresh))
      [0; 1; 2; 3; 4]%nat
  = map (fun delay => inr (Double.Integer delay))
        [1150; 2300; 4600; 9200; 10000].
Proof. vm_compute. reflexivity. Qed.

(** With twenty entries in the last second, the oldest 900 ms old, the
    admission check sleeps 100 ms and the 100 ms of margin. *)
Example checkRateLimit_sleeps :
  checkRateLimit {| clock := 1000; requestTimes := replicate 20 100;
                    fetched := 0; drawn := 0; trace := [] |}
  = (inr tt,
     {| clock := 1200; requestTimes := replicate 20 100;
        fetched := 0; drawn := 0;
        trace := [EAdmit; EWarn "Rate limit approaching, waiting 100ms...";
                  ESleep 200] |}).
Proof. reflexivity. Qed.

Lemma count_app p a b : count p (a ++ b) = (count p a + count p b)%nat.
Proof. unfold count. by rewrite List.filter_app, length_app. Qed.

Ltac tally :=
  unfold admits, pushes, attempts, sleeps in *;
  rewrite ?count_app in *; unfold count in *; simpl in *.

Ltac silent_throw :=
  exists (@nil Effect); split; [| repeat split; reflexivity];
  let w := fresh "w" in
  intros w; unfold logged; rewrite app_nil_r; destruct w; reflexivity.

Lemma handleErrorResponse_throws this r attempt :
  exists err tr,
    (forall w, handleErrorResponse this r attempt w = (inl err, logged tr w))
    /\ admits tr = 0%nat /\ attempts tr = 0%nat /\ pushes tr = 0%nat.
Proof.
  unfold handleErrorResponse.
  repeat case_decide; try (eexists; silent_throw).
  - destruct (_ <? _)%nat.
    + eexists _, [_]. split; [intros w; reflexivity | repeat split; reflexivity].
    + eexists; silent_throw.
  - destruct (_ <? _)%nat; eexists; silent_throw.
Qed.

Lemma preserves_refl w : preserves w w.
Proof. split; [done|]. exists []. by rewrite app_nil_r. Qed.

Lemma preserves_trans w1 w2 w3 :
  preserves w1 w2 -> preserves w2 w3 -> preserves w1 w3.
Proof.
  intros (Hr1 & tr1 & Ht1 & Ha1 & Hp1) (Hr2 & tr2 & Ht2 & Ha2 & Hp2).
  split; [congruence|]. exists (tr1 ++ tr2).
  rewrite Ht2, Ht1, app_assoc. tally. repeat split; lia.
Qed.

Lemma preserves_logged tr w :
  admits tr = 0%nat -> pushes tr = 0%nat -> preserves w (logged tr w).
Proof. intros. split; [done|]. by exists tr. Qed.

Lemma preserves_counts w w' :
  preserves w w' ->
  admits (trace w') = admits (trace w) /\ pushes (trace w') = pushes (trace w).
Proof. intros (_ & tr & -> & Ha & Hp). tally. lia. Qed.

Lemma backoff_before_retry E this attempt w :
  exists w2,
    (if (attempt <? maxRetries (retryConfig this))%nat
     then let* delay := calculateBackoff E this attempt in
          let* _ := console_warn
            ("Retry attempt " +:+ pretty (S attempt) +:+ "/"
             +:+ pretty (maxRetries (retryConfig this))
             +:+ " after " +:+ Double.Number_toString delay +:+ "ms") in
          sleep (Double.timeout delay)
     else ret tt) w = (inr tt, w2)
    /\ preserves w w2
    /\ fetched w2 = fetched w
    /\ attempts (trace w2) = attempts (trace w)
    /\ drawn w2 = (drawn w + if (attempt <? maxRetries (retryConfig this))%nat then 1 else 0)%nat.
Proof.
  destruct (_ <? _)%nat.
  - unfold calculateBackoff, Math_random, console_warn, sleep, emit, advance,
      bind, ret.
    eexists. split; [reflexivity|].
    cbn [clock requestTimes fetched drawn trace]. split.
    + split; [done|]. eexists [_; _]. rewrite <- app_assoc. done.
    + rewrite <- app_assoc. unfold attempts, count.
      rewrite List.filter_app. cbn [List.filter is_fetch app].
      rewrite app_nil_r. repeat split; lia.
  - exists w. split; [done|]. split; [apply preserves_refl|]. repeat split; lia.
Qed.

Lemma failed_attempt E this url n attempt last w :
  match net E (fetched w) with
  | NetworkFailure _ => True
  | Reply r => ok r = false
  end ->
  exists err w2,
    request_loop E this url (S n) attempt last w
    = request_loop E this url n (S attempt) (Some err) w2
    /\ match net E (fetched w) with
       | NetworkFailure m => err = Error m
       | Reply r => forall w0, fst (handleErrorResponse this r attempt w0) = inl err
       end
    /\ preserves w w2
    /\ fetched w2 = S (fetched w)
    /\ attempts (trace w2) = S (attempts (trace w))
    /\ drawn w2 = (drawn w + if (attempt <? maxRetries (retryConfig this))%nat then 1 else 0)%nat.
Proof.
  intros Hnet. cbn [request_loop]. unfold try_catch at 1. unfold bind at 1, fetch at 1.
  assert (Hfetch : forall w0 : World, preserves w0 (logged [EFetch url] w0))
    by (intros; by apply preserves_logged).
  destruct (net E (fetched w)) as [m|r] eqn:Hr.
  - match goal with |- context [bind ?m ?k ?w'] => 
      destruct (backoff_before_retry E this attempt w') as (w2 & Hb & Hp & Hf & Ha & Hd) end.
    exists (Error m), w2. unfold bind at 1. rewrite Hb. split; [reflexivity|].
    split; [reflexivity|]. split.
    { eapply preserves_trans; [|apply Hp]. split; [done|]. by exists [EFetch url]. }
    simpl in *. tally. repeat split; try lia.
  - rewrite Hnet. simpl negb. cbv iota. unfold bind at 1. unfold bind at 1.
    destruct (handleErrorResponse_throws this r attempt) as (err & tr & He & Ha & Hf & Hp).
    rewrite He.
    match goal with |- context [bind ?m ?k ?w'] => 
      destruct (backoff_before_retry E this attempt w') as (w2 & Hb & Hp2 & Hf2 & Ha2 & Hd2) end.
    exists err, w2. unfold bind at 1. rewrite Hb. split; [reflexivity|].
    split. { intros w0. by rewrite He. }
    split.
    { eapply preserves_trans; [|apply Hp2]. split; [done|]. exists (EFetch url :: tr).
      simpl. rewrite <- app_assoc. tally. done. }
    simpl in *. tally. repeat split; try lia.
Qed.

Lemma successful_attempt E this url n attempt last w r o :
  net E (fetched w) = Reply r -> ok r = true -> json r = Some o ->
  request_loop E this url (S n) attempt last w
  = (inr o,
     let now := clock w + Z.of_nat (latency E (fetched w)) in
     {| clock := now; requestTimes := requestTimes w ++ [now];
        fetched := S (fetched w); drawn := drawn w;
        trace := trace w ++ [EFetch url; EPush now] |}).
Proof.
  intros Hnet Hok Hjson. cbn [request_loop].
  unfold try_catch, bind, fetch, response_json. rewrite Hnet, Hok, Hjson. simpl.
  by rewrite <- app_assoc.
Qed.

Lemma checkRateLimit_spec w :
  exists w1 tr,
    checkRateLimit w = (inr tt, w1)
    /\ requestTimes w1
       = filter (fun time => clock w - time < rateLimitWindow) (requestTimes w)
    /\ fetched w1 = fetched w /\ drawn w1 = drawn w
    /\ trace w1 = trace w ++ EAdmit :: tr
    /\ admits tr = 0%nat /\ attempts tr = 0%nat /\ pushes tr = 0%nat
    /\ clock w <= clock w1
    /\ ((RATE_LIMITS_pro_requestsPerSecond <= length (requestTimes w1))%nat ->
        exists oldest, requestTimes w1 !! 0%nat = Some oldest
                       /\ clock w1 = oldest + rateLimitWindow + 100).
Proof.
  unfold checkRateLimit.
  set (kept := filter (fun time => clock w - time < rateLimitWindow) (requestTimes w)).
  unfold bind at 1, emit at 1. unfold bind at 1, Date_now at 1. unfold bind at 1.
  unfold bind at 1, set_requestTimes at 1. cbn [clock requestTimes fetched drawn trace].
  fold kept.
  destruct (RATE_LIMITS_pro_requestsPerSecond <=? length kept)%nat eqn:Hfull.
  - destruct kept as [|oldest rest] eqn:Hkept; [discriminate|]. cbn [lookup list_lookup].
    assert (Hin : clock w - oldest < rateLimitWindow).
    { assert (Hel : oldest ∈ kept) by (rewrite Hkept; left).
      unfold kept in Hel. apply list_elem_of_filter in Hel. tauto. }
    case_decide; [|lia].
    eexists _, _. split; [reflexivity|]. cbn [clock requestTimes fetched drawn trace].
    split; [reflexivity|]. split; [reflexivity|]. split; [reflexivity|].
    split; [rewrite <- !app_assoc; reflexivity|].
    repeat split; try reflexivity.
    + unfold rateLimitWindow in *. lia.
    + intros _. exists oldest. split; [reflexivity|]. unfold rateLimitWindow in *. lia.
  - eexists _, []. split; [reflexivity|]. cbn [clock requestTimes fetched drawn trace].
    repeat split; try reflexivity; try lia.
    intros Hlen. apply Nat.leb_gt in Hfull. lia.
Qed.

Lemma handleErrorResponse_401 this r attempt :
  status r = 401 ->
  forall w, fst (handleErrorResponse this r attempt w)
            = inl (MeshyAuthError
                     ("Unauthorized: " +:+
                      or_else (match json r with
                               | Some data => data
                               | None => {[ "message" := text r ]}
                               end !! "message")
                              ("HTTP " +:+ pretty 401))).
Proof.
  intros Hs w. unfold handleErrorResponse. rewrite Hs.
  repeat case_decide; try lia. reflexivity.
Qed.

Lemma not_ok_of_4xx r : 400 <= status r -> ok r = false.
Proof. intros. unfold ok. apply andb_false_iff. right. apply Z.leb_gt. lia. Qed.

Lemma request_loop_all_401 E this url n attempt last w :
  (attempt + n = S (maxRetries (retryConfig this)))%nat ->
  (forall i, (fetched w <= i)%nat -> exists r, net E i = Reply r /\ status r = 401) ->
  (n = 0%nat -> exists m, last = Some (MeshyAuthError m)) ->
  exists m w',
    request_loop E this url n attempt last w = (inl (MeshyAuthError m), w')
    /\ attempts (trace w') = (attempts (trace w) + n)%nat
    /\ drawn w' = (drawn w + (n - 1))%nat
    /\ preserves w w'.
Proof.
  revert attempt last w. induction n as [|n IH]; intros attempt last w Hn Hnet Hlast.
  - destruct Hlast as [m ->]; [done|]. exists m, w. simpl.
    repeat split; try lia. exists []. by rewrite app_nil_r.
  - destruct (Hnet (fetched w)) as (r & Hr & Hs); [lia|].
    destruct (failed_attempt E this url n attempt last w) as (err & w2 & Heq & Herr & Hp & Hf & Ha & Hd).
    { rewrite Hr. apply not_ok_of_4xx. lia. }
    rewrite Hr in Herr. specialize (Herr w).
    rewrite (handleErrorResponse_401 this r attempt Hs) in Herr.
    destruct (IH (S attempt) (Some err) w2) as (m & w' & Hrun & Ha' & Hd' & Hp').
    + lia.
    + intros i Hi. apply Hnet. lia.
    + intros _. injection Herr as <-. eauto.
    + exists m, w'. rewrite Heq, Hrun. split; [done|].
      assert ((attempt <? maxRetries (retryConfig this))%nat = negb (n =? 0)%nat) as Hlt.
      { destruct (Nat.ltb_spec attempt (maxRetries (retryConfig this)));
          destruct (Nat.eqb_spec n 0); simpl; try reflexivity; lia. }
      rewrite Hlt in Hd. destruct n; simpl in *; repeat split; try lia.
      all: eapply preserves_trans; eauto.
Qed.

(** C1, as the code has it. When the server answers every attempt of a call
    with status 401, [request] does fail with a [MeshyAuthError], but only
    after [maxRetries + 1] network attempts and [maxRetries] backoffs (each
    backoff draws one random number): the [catch] of the retry loop takes
    the error thrown for any status, and [retryOn] is never read. A single
    attempt is made only when [maxRetries] is 0. *)
Theorem request_retries_unauthorized E this endpoint w :
  (forall i, (fetched w <= i)%nat -> exists r, net E i = Reply r /\ status r = 401) ->
  exists m w',
    request E this endpoint w = (inl (MeshyAuthError m), w')
    /\ attempts (trace w') = (attempts (trace w) + S (maxRetries (retryConfig this)))%nat
    /\ drawn w' = (drawn w + maxRetries (retryConfig this))%nat.
Proof.
  intros Hnet. unfold request, bind.
  destruct (checkRateLimit_spec w) as (w1 & tr & Hc & _ & Hf & Hd & Ht & _ & Ha & _).
  rewrite Hc.
  destruct (request_loop_all_401 E this (baseUrl this +:+ endpoint)
              (S (maxRetries (retryConfig this))) 0 None w1)
    as (m & w' & Hrun & Ha' & Hd' & _).
  - lia.
  - rewrite Hf. exact Hnet.
  - discriminate.
  - exists m, w'. split; [exact Hrun|]. rewrite Ha', Hd', Hd, Ht. tally. lia.
Qed.

Lemma request_retries_unauthorized_witness :
  exists m w',
    request always_401 meshy "/animations/t1" fresh
    = (inl (MeshyAuthError m), w')
    /\ attempts (trace w') = 4%nat
    /\ drawn w' = 3%nat.
Proof.
  apply (request_retries_unauthorized always_401 meshy "/animations/t1" fresh).
  intros i _. eexists. split; reflexivity.
Defined.

(** The same run, effect by effect: four fetches and three backoffs. *)
Lemma unauthorized_run_trace :
  request always_401 meshy "/animations/t1" fresh
  = (inl (MeshyAuthError "Unauthorized: Invalid API key"),
     {| clock := 8210; requestTimes := []; fetched := 4; drawn := 3;
        trace := [EAdmit;
                  EFetch "https://api.meshy.ai/openapi/v2/animations/t1";
                  EWarn "Retry attempt 1/3 after 1150ms"; ESleep 1150;
                  EFetch "https://api.meshy.ai/openapi/v2/animations/t1";
                  EWarn "Retry attempt 2/3 after 2300ms"; ESleep 2300;
                  EFetch "https://api.meshy.ai/openapi/v2/animations/t1";
                  EWarn "Retry attempt 3/3 after 4600ms"; ESleep 4600;
                  EFetch "https://api.meshy.ai/openapi/v2/animations/t1"] |}).
Proof. vm_compute. reflexivity. Qed.

(** C6. With [maxRetries >= 2], when the replies to the first two attempts of
    a call have status 429 and the reply to the third has status 200 and a
    JSON body, [request] resolves with the decoded body after three
    attempts, and the window is the one the admission check pruned plus
    exactly one new timestamp, the time of the success. *)
Theorem request_succeeds_after_two_429 E this endpoint w r0 r1 r2 payload :
  (2 <= maxRetries (retryConfig this))%nat ->
  net E (fetched w) = Reply r0 -> status r0 = 429 ->
  net E (S (fetched w)) = Reply r1 -> status r1 = 429 ->
  net E (S (S (fetched w))) = Reply r2 -> status r2 = 200 ->
  json r2 = Some payload ->
  exists w',
    request E this endpoint w = (inr payload, w')
    /\ requestTimes w'
       = filter (fun time => clock w - time < rateLimitWindow) (requestTimes w)
         ++ [clock w']
    /\ pushes (trace w') = S (pushes (trace w))
    /\ attempts (trace w') = (attempts (trace w) + 3)%nat.
Proof.
  intros Hmax H0 Hs0 H1 Hs1 H2 Hs2 Hjson. unfold request, bind.
  destruct (checkRateLimit_spec w) as (w1 & tr & Hc & Hrt & Hf & _ & Ht & _ & Ha & Hp & _).
  rewrite Hc. rewrite <- Hf in H0, H1, H2.
  destruct (maxRetries (retryConfig this)) as [|[|m]] eqn:Hm; [lia|lia|].
  set (url := baseUrl this +:+ endpoint).
  destruct (failed_attempt E this url (S (S m)) 0 None w1)
    as (e1 & w2 & Heq1 & _ & Hp1 & Hf1 & Ha1 & _).
  { rewrite H0. apply not_ok_of_4xx. lia. }
  rewrite <- Hf1 in H1, H2.
  destruct (failed_attempt E this url (S m) 1 (Some e1) w2)
    as (e2 & w3 & Heq2 & _ & Hp2 & Hf2 & Ha2 & _).
  { rewrite H1. apply not_ok_of_4xx. lia. }
  rewrite <- Hf2 in H2.
  rewrite Heq1, Heq2.
  erewrite successful_attempt; [|exact H2| |exact Hjson].
  2:{ unfold ok. rewrite Hs2. reflexivity. }
  eexists. split; [reflexivity|]. cbn [clock requestTimes trace].
  destruct (preserves_counts _ _ Hp1) as [_ Hq1].
  destruct (preserves_counts _ _ Hp2) as [_ Hq2].
  destruct Hp1 as [Hr1 _], Hp2 as [Hr2 _].
  rewrite Hr2, Hr1, Hrt. split; [reflexivity|].
  clear Heq1 Heq2 Hc. tally. rewrite Ha2, Ha1, Hq2, Hq1, Ht.
  rewrite !List.filter_app, !length_app. simpl. lia.
Qed.

Lemma request_succeeds_after_two_429_witness :
  exists w',
    request two_429_then_200 meshy "/animations/t1" fresh
    = (inr (list_to_map [("id", "t1"); ("status", "PENDING")]), w')
    /\ requestTimes w' = [clock w']
    /\ pushes (trace w') = 1%nat
    /\ attempts (trace w') = 3%nat.
Proof.
  apply (request_succeeds_after_two_429 two_429_then_200 meshy
           "/animations/t1" fresh slow_down slow_down
           {| status := 200;
              text := "{" +:+ members [("id", "t1"); ("status", "PENDING")] +:+ "}";
              json := Some (list_to_map [("id", "t1"); ("status", "PENDING")]) |}
           (list_to_map [("id", "t1"); ("status", "PENDING")]));
    first [reflexivity | simpl; lia].
Defined.

(** C6 as stated fails: after two 429 replies, a reply with status 200
    whose body does not decode has its timestamp pushed and is then retried
    as a failure; the call makes four attempts, rejects, and leaves two
    timestamps in the window. *)
Lemma request_rejects_undecodable_200 :
  request two_429_then_empty meshy "/animations/t1" fresh
  = (inl (Error "SyntaxError: invalid json response body"),
     {| clock := 8210; requestTimes := [3570; 8210]; fetched := 4; drawn := 3;
        trace := [EAdmit;
                  EFetch "https://api.meshy.ai/openapi/v2/animations/t1";
                  EWarn "Rate limited. Will retry...";
                  EWarn "Retry attempt 1/3 after 1150ms"; ESleep 1150;
                  EFetch "https://api.meshy.ai/openapi/v2/animations/t1";
                  EWarn "Rate limited. Will retry...";
                  EWarn "Retry attempt 2/3 after 2300ms"; ESleep 2300;
                  EFetch "https://api.meshy.ai/openapi/v2/animations/t1";
                  EPush 3570;
                  EWarn "Retry attempt 3/3 after 4600ms"; ESleep 4600;
                  EFetch "https://api.meshy.ai/openapi/v2/animations/t1";
                  EPush 8210] |}).
Proof. vm_compute. reflexivity. Qed.

Lemma quiet_ret {A} (a : A) : quiet (ret a).
Proof. intros w. exists []. by rewrite app_nil_r. Qed.

Lemma quiet_throw {A} e : quiet (@throw A e).
Proof. intros w. exists []. by rewrite app_nil_r. Qed.

Lemma quiet_bind {A B} (m : M A) (k : A -> M B) :
  quiet m -> (forall a, quiet (k a)) -> quiet (bind m k).
Proof.
  intros Hm Hk w. unfold bind. destruct (Hm w) as (tr1 & Ht1 & Ha1).
  destruct (m w) as [[e|a] w1]; simpl in *.
  - by exists tr1.
  - destruct (Hk a w1) as (tr2 & Ht2 & Ha2). exists (tr1 ++ tr2).
    split; [by rewrite Ht2, Ht1, app_assoc | tally; lia].
Qed.

Lemma quiet_try_catch {A} (body : M A) handler :
  quiet body -> (forall e, quiet (handler e)) -> quiet (try_catch body handler).
Proof.
  intros Hm Hk w. unfold try_catch. destruct (Hm w) as (tr1 & Ht1 & Ha1).
  destruct (body w) as [[e|a] w1]; simpl in *.
  - destruct (Hk e w1) as (tr2 & Ht2 & Ha2). exists (tr1 ++ tr2).
    split; [by rewrite Ht2, Ht1, app_assoc | tally; lia].
  - by exists tr1.
Qed.

Lemma quiet_emit e : is_admit e = false -> quiet (emit e).
Proof. intros He w. exists [e]. split; [done|]. tally. by rewrite He. Qed.

Lemma quiet_same {A} (m : M A) :
  (forall w, trace (snd (m w)) = trace w) -> quiet m.
Proof. intros H w. exists []. by rewrite app_nil_r. Qed.

Lemma quiet_fetch E url : quiet (fetch E url).
Proof. intros w. exists [EFetch url]. unfold fetch. by destruct (net E _). Qed.

Lemma quiet_sleep ms : quiet (sleep ms).
Proof. apply quiet_bind; [by apply quiet_emit|]. intros _. by apply quiet_same. Qed.

Lemma quiet_handleErrorResponse this r attempt : quiet (handleErrorResponse this r attempt).
Proof.
  intros w. destruct (handleErrorResponse_throws this r attempt) as (err & tr & He & Ha & _).
  rewrite He. by exists tr.
Qed.

Lemma quiet_request_loop E this url n attempt last :
  quiet (request_loop E this url n attempt last).
Proof.
  revert attempt last. induction n as [|n IH]; intros attempt last; cbn [request_loop].
  - apply quiet_throw.
  - apply quiet_try_catch.
    + apply quiet_bind; [apply quiet_fetch|]. intros r.
      apply quiet_bind.
      { destruct (negb (ok r)); [|apply quiet_ret].
        apply quiet_bind; [apply quiet_handleErrorResponse|]. intros []. }
      intros _. apply quiet_bind; [by apply quiet_same|]. intros now.
      apply quiet_bind; [by apply quiet_emit|]. intros _.
      apply quiet_bind; [by apply quiet_same|]. intros times.
      apply quiet_bind; [by apply quiet_same|]. intros _.
      unfold response_json. destruct (json r); [apply quiet_ret|apply quiet_throw].
    + intros e. apply quiet_bind; [|intros _; apply IH].
      destruct (_ <? _)%nat; [|apply quiet_ret].
      apply quiet_bind; [by apply quiet_same|]. intros delay.
      apply quiet_bind; [by apply quiet_emit|]. intros _. apply quiet_sleep.
Qed.

Lemma request_loop_accounting E this url n attempt last w :
  (forall i r, net E i = Reply r -> ok r = true -> is_Some (json r)) ->
  exists res w',
    request_loop E this url n attempt last w = (res, w')
    /\ match res with
       | inr _ => pushes (trace w') = S (pushes (trace w))
                  /\ requestTimes w' = requestTimes w ++ [clock w']
       | inl _ => pushes (trace w') = pushes (trace w)
                  /\ requestTimes w' = requestTimes w
       end.
Proof.
  intros Hdec. revert attempt last w. induction n as [|n IH]; intros attempt last w.
  - eexists _, _. split; [reflexivity|]. done.
  - destruct (net E (fetched w)) as [m|r] eqn:Hnet; [|destruct (ok r) eqn:Hok].
    + destruct (failed_attempt E this url n attempt last w) as (err & w2 & Heq & _ & Hp & _).
      { by rewrite Hnet. }
      destruct (IH (S attempt) (Some err) w2) as (res & w' & Hrun & Hres).
      exists res, w'. rewrite Heq. split; [exact Hrun|].
      destruct (preserves_counts _ _ Hp) as [_ Hq]. destruct Hp as [Hr _].
      rewrite <- Hq, <- Hr. exact Hres.
    + destruct (Hdec _ _ Hnet Hok) as [o Ho].
      erewrite successful_attempt by eauto. eexists _, _. split; [reflexivity|].
      cbn [clock requestTimes trace]. split; [|reflexivity]. tally. lia.
    + destruct (failed_attempt E this url n attempt last w) as (err & w2 & Heq & _ & Hp & _).
      { by rewrite Hnet. }
      destruct (IH (S attempt) (Some err) w2) as (res & w' & Hrun & Hres).
      exists res, w'. rewrite Heq. split; [exact Hrun|].
      destruct (preserves_counts _ _ Hp) as [_ Hq]. destruct Hp as [Hr _].
      rewrite <- Hq, <- Hr. exact Hres.
Qed.

(** C7, amended. In every call of [request] the admission check runs exactly
    once, as the first effect of the call, before the first attempt; the
    retry loop performs no further check. When every 2xx reply has a body
    that decodes, a call that resolves has appended exactly one entry to the
    pruned window, the time of its success, and a call that rejects has
    appended none. *)
Theorem request_admits_once E this endpoint w :
  (exists tr, trace (snd (request E this endpoint w)) = trace w ++ EAdmit :: tr
              /\ admits tr = 0%nat)
  /\ ((forall i r, net E i = Reply r -> ok r = true -> is_Some (json r)) ->
      let kept := filter (fun time => clock w - time < rateLimitWindow)
                         (requestTimes w) in
      match request E this endpoint w with
      | (inr _, w') => pushes (trace w') = S (pushes (trace w))
                       /\ requestTimes w' = kept ++ [clock w']
      | (inl _, w') => pushes (trace w') = pushes (trace w)
                       /\ requestTimes w' = kept
      end).
Proof.
  unfold request, bind.
  destruct (checkRateLimit_spec w) as (w1 & tr & Hc & Hrt & Hf & _ & Ht & Ha & _ & Hp & _).
  rewrite Hc. split.
  - destruct (quiet_request_loop E this (baseUrl this +:+ endpoint)
                (S (maxRetries (retryConfig this))) 0 None w1) as (tr2 & Ht2 & Ha2).
    exists (tr ++ tr2). rewrite Ht2, Ht. rewrite <- app_assoc. simpl. tally. split; [done|lia].
  - intros Hdec. cbv zeta.
    destruct (request_loop_accounting E this (baseUrl this +:+ endpoint)
                (S (maxRetries (retryConfig this))) 0 None w1 Hdec)
      as (res & w' & Hrun & Hres).
    rewrite Hrun. rewrite Ht, Hrt in Hres.
    assert (pushes (trace w ++ EAdmit :: tr) = pushes (trace w)) as Hq by (tally; lia).
    rewrite Hq in Hres. exact Hres.
Qed.

Lemma request_admits_once_witness :
  match request two_429_then_200 meshy "/animations/t1" fresh with
  | (inr _, w') => pushes (trace w') = 1%nat /\ requestTimes w' = [clock w']
  | (inl _, w') => pushes (trace w') = 0%nat /\ requestTimes w' = []
  end.
Proof.
  apply (request_admits_once two_429_then_200 meshy "/animations/t1" fresh).
  intros [|[|i]] r Hnet Hok; simpl in Hnet; injection Hnet as <-;
    first [discriminate Hok | eexists; reflexivity].
Defined.

(** C7 as stated fails: in a call that is rate limited twice and then
    succeeds, the three attempts share the one admission check made before
    the first. *)
Lemma request_checks_rate_once :
  let w' := snd (request two_429_then_200 meshy "/animations/t1" fresh) in
  admitted_before_each_attempt false (trace w') = false
  /\ admits (trace w') = 1%nat
  /\ attempts (trace w') = 3%nat
  /\ pushes (trace w') = 1%nat.
Proof. vm_compute. repeat split; reflexivity. Qed.

(** ** Backoff *)

Import Double.

(** *** Rounding to a double does not reverse the order *)

Lemma pow2_pos (e : Z) : (0 < 2 ^ e)%Q.
Proof. by apply Qpower_0_lt. Qed.

Lemma pow2_add (a b : Z) : (2 ^ (a + b) == 2 ^ a * 2 ^ b)%Q.
Proof. by apply Qpower_plus. Qed.

Lemma pow2_le (a b : Z) : a <= b -> (2 ^ a <= 2 ^ b)%Q.
Proof. intros. by apply Qpower_le_compat_l. Qed.

Lemma pow2_lt_inv (a b : Z) : (2 ^ a < 2 ^ b)%Q -> a < b.
Proof. intros. by apply (Qpower_lt_compat_l_inv 2). Qed.

Lemma pow2_inject (n : Z) : 0 <= n -> (inject_Z (2 ^ n) == 2 ^ n)%Q.
Proof. intros. by rewrite Zpower_Qpower. Qed.

Lemma ilog2_spec (x : Q) :
  (0 < x)%Q -> (2 ^ ilog2 x <= x)%Q /\ (x < 2 ^ (ilog2 x + 1))%Q.
Proof.
  intros Hx. unfold ilog2.
  set (a := Z.log2 (Qnum x)). set (b := Z.log2 (Zpos (Qden x))).
  assert (Hn : 0 < Qnum x).
  { destruct x as [n d]. unfold Qlt in Hx. simpl in *. lia. }
  destruct (Z.log2_spec (Qnum x) Hn) as [Ha1 Ha2]. fold a in Ha1, Ha2.
  destruct (Z.log2_spec (Zpos (Qden x)) ltac:(lia)) as [Hb1 Hb2].
  fold b in Hb1, Hb2.
  assert (Ha0 : 0 <= a) by apply Z.log2_nonneg.
  assert (Hb0 : 0 <= b) by apply Z.log2_nonneg.
  assert (Hd : (0 < inject_Z (Zpos (Qden x)))%Q) by (unfold Qlt; simpl; lia).
  assert (Hxd : (x * inject_Z (Zpos (Qden x)) == inject_Z (Qnum x))%Q).
  { destruct x as [n d]. unfold Qeq. simpl. lia. }
  assert (HA1 : (2 ^ a <= inject_Z (Qnum x))%Q).
  { rewrite <- pow2_inject by done. by rewrite <- Zle_Qle. }
  assert (HA2 : (inject_Z (Qnum x) < 2 ^ (a + 1))%Q).
  { rewrite <- pow2_inject by lia. by rewrite <- Zlt_Qlt. }
  assert (HB1 : (2 ^ b <= inject_Z (Zpos (Qden x)))%Q).
  { rewrite <- pow2_inject by done. by rewrite <- Zle_Qle. }
  assert (HB2 : (inject_Z (Zpos (Qden x)) < 2 ^ (b + 1))%Q).
  { rewrite <- pow2_inject by lia. by rewrite <- Zlt_Qlt. }
  assert (Hk1 : (2 ^ (a - b + 1) * 2 ^ b == 2 ^ (a + 1))%Q).
  { rewrite <- pow2_add. by replace (a - b + 1 + b) with (a + 1) by lia. }
  assert (Hk2 : (2 ^ (a - b - 1) * 2 ^ (b + 1) == 2 ^ a)%Q).
  { rewrite <- pow2_add. by replace (a - b - 1 + (b + 1)) with a by lia. }
  pose proof (pow2_pos (a - b + 1)) as Hk3.
  pose proof (pow2_pos (a - b - 1)) as Hk4.
  destruct (Qle_bool (2 ^ (a - b)) x) eqn:Hle.
  - apply Qle_bool_iff in Hle. split; [exact Hle|].
    apply (Qmult_lt_r _ _ _ Hd). rewrite Hxd.
    eapply Qlt_le_trans; [exact HA2|]. rewrite <- Hk1.
    apply Qmult_le_l; [exact Hk3|exact HB1].
  - assert (Hlt : (x < 2 ^ (a - b))%Q).
    { apply Qnot_le_lt. intros H. apply Qle_bool_iff in H. congruence. }
    replace (a - b - 1 + 1) with (a - b) by lia. split; [|exact Hlt].
    apply (Qmult_le_r _ _ _ Hd). rewrite Hxd.
    eapply Qle_trans; [|exact HA1]. rewrite <- Hk2.
    apply Qmult_le_l; [exact Hk4|]. by apply Qlt_le_weak.
Qed.

Lemma ilog2_mono (x y : Q) : (0 < x)%Q -> (x <= y)%Q -> ilog2 x <= ilog2 y.
Proof.
  intros Hx Hxy. destruct (ilog2_spec x Hx) as [Hlo _].
  destruct (ilog2_spec y ltac:(lra)) as [_ Hhi].
  assert (H : (2 ^ ilog2 x < 2 ^ (ilog2 y + 1))%Q) by lra.
  apply pow2_lt_inv in H. lia.
Qed.

Lemma nearest_even_bounds (x : Q) :
  Qfloor x <= nearest_even x <= Qfloor x + 1.
Proof.
  unfold nearest_even. destruct (_ ?= _)%Q; [destruct (Z.even _)| |]; lia.
Qed.

Lemma nearest_even_Z (n : Z) : nearest_even (inject_Z n) = n.
Proof.
  unfold nearest_even. rewrite Qfloor_Z.
  destruct (Qcompare_spec (inject_Z n - inject_Z n) (1 # 2)) as [H|H|H];
    [exfalso; lra|reflexivity|exfalso; lra].
Qed.

Lemma nearest_even_mono (x y : Q) :
  (x <= y)%Q -> nearest_even x <= nearest_even y.
Proof.
  intros Hxy. pose proof (Qfloor_resp_le x y Hxy) as Hf.
  destruct (Z.eq_dec (Qfloor x) (Qfloor y)) as [Heq|Hne].
  - unfold nearest_even. rewrite <- Heq.
    destruct (Qcompare_spec (x - inject_Z (Qfloor x)) (1 # 2)) as [Hx|Hx|Hx];
      destruct (Qcompare_spec (y - inject_Z (Qfloor x)) (1 # 2)) as [Hy|Hy|Hy];
      try destruct (Z.even _); try lia; exfalso; lra.
  - pose proof (nearest_even_bounds x). pose proof (nearest_even_bounds y). lia.
Qed.

Lemma nearest_even_le (x : Q) (n : Z) :
  (x <= inject_Z n)%Q -> nearest_even x <= n.
Proof. intros H%nearest_even_mono. by rewrite nearest_even_Z in H. Qed.

Lemma nearest_even_ge (x : Q) (n : Z) :
  (inject_Z n <= x)%Q -> n <= nearest_even x.
Proof. intros H%nearest_even_mono. by rewrite nearest_even_Z in H. Qed.

Lemma Qabs_of_pos (x : Q) : (0 < x)%Q -> Qabs x = x.
Proof.
  destruct x as [n d]. unfold Qlt. simpl. intros H.
  unfold Qabs. f_equal. lia.
Qed.

Lemma scale_le (x y : Q) (q : Z) :
  (x <= y)%Q -> (x / 2 ^ q <= y / 2 ^ q)%Q.
Proof.
  intros H. unfold Qdiv. apply Qmult_le_compat_r; [exact H|].
  apply Qlt_le_weak, Qinv_lt_0_compat, pow2_pos.
Qed.

Lemma scale_pow2 (e q : Z) : (2 ^ e / 2 ^ q == 2 ^ (e - q))%Q.
Proof. by rewrite Qpower_minus. Qed.

(** Between two binades the rounding passes through the power of two that
    separates them. *)
Lemma rounded_mono (x y : Q) :
  (0 < x)%Q -> (x <= y)%Q -> (rounded x <= rounded y)%Q.
Proof.
  intros Hx Hxy. assert (Hy : (0 < y)%Q) by lra. unfold rounded, quantum.
  rewrite (Qabs_of_pos x Hx), (Qabs_of_pos y Hy).
  pose proof (ilog2_mono x y Hx Hxy) as He.
  destruct (ilog2_spec x Hx) as [_ Hxhi]. destruct (ilog2_spec y Hy) as [Hylo _].
  set (ex := ilog2 x) in *. set (ey := ilog2 y) in *.
  set (qx := Z.max ex (-1022) - 52). set (qy := Z.max ey (-1022) - 52).
  destruct (Z.eq_dec qx qy) as [Heq|Hne].
  - rewrite <- Heq. apply Qmult_le_compat_r; [|apply Qlt_le_weak, pow2_pos].
    rewrite <- Zle_Qle. apply nearest_even_mono, scale_le, Hxy.
  - assert (Hlt : ex < ey /\ -1022 < ey /\ qy = ey - 52 /\ qx < ey) by lia.
    destruct Hlt as (Hex & Hey & Hqy & Hqx).
    apply Qle_trans with (2 ^ ey)%Q.
    + assert (Hn : nearest_even (x / 2 ^ qx) <= 2 ^ (ey - qx)).
      { apply nearest_even_le. rewrite pow2_inject by lia.
        rewrite <- scale_pow2. apply scale_le.
        apply Qle_trans with (2 ^ (ex + 1))%Q; [lra|]. apply pow2_le. lia. }
      rewrite Zle_Qle, pow2_inject in Hn by lia.
      assert (Hsplit : (2 ^ ey == 2 ^ (ey - qx) * 2 ^ qx)%Q).
      { rewrite <- pow2_add. by replace (ey - qx + qx) with ey by lia. }
      rewrite Hsplit.
      apply Qmult_le_compat_r; [exact Hn|apply Qlt_le_weak, pow2_pos].
    + assert (Hn : 2 ^ 52 <= nearest_even (y / 2 ^ qy)).
      { apply nearest_even_ge. rewrite pow2_inject by lia.
        replace 52 with (ey - qy) by lia. rewrite <- scale_pow2.
        apply scale_le, Hylo. }
      rewrite Zle_Qle, pow2_inject in Hn by lia.
      assert (Hsplit : (2 ^ ey == 2 ^ 52 * 2 ^ qy)%Q).
      { rewrite <- pow2_add. by replace (52 + qy) with ey by lia. }
      rewrite Hsplit.
      apply Qmult_le_compat_r; [exact Hn|apply Qlt_le_weak, pow2_pos].
Qed.

Lemma rounded_nonneg (x : Q) : (0 < x)%Q -> (0 <= rounded x)%Q.
Proof.
  intros Hx. unfold rounded.
  apply Qmult_le_0_compat; [|apply Qlt_le_weak, pow2_pos].
  change 0%Q with (inject_Z 0). rewrite <- Zle_Qle. apply nearest_even_ge.
  apply Qle_shift_div_l; [apply pow2_pos|]. change (inject_Z 0) with 0%Q. lra.
Qed.

Lemma round_pos (x : Q) :
  (0 < x)%Q ->
  round x = (if Qle_bool (2 ^ 1024) (rounded x) then PosInfinity
             else Num (Qred (rounded x))).
Proof.
  intros Hx. unfold round.
  assert (Qeq_bool x 0 = false) as ->.
  { apply not_true_iff_false. intros H%Qeq_bool_iff. lra. }
  cbv zeta. rewrite Qabs_pos by (by apply rounded_nonneg).
  assert (Qle_bool 0 x = true) as -> by (apply Qle_bool_iff; lra).
  reflexivity.
Qed.

Lemma round_zero (x : Q) : (x == 0)%Q -> round x = Num 0.
Proof. intros H. unfold round. by rewrite (proj2 (Qeq_bool_iff x 0) H). Qed.

Lemma round_mono (x y : Q) :
  (0 <= x)%Q -> (x <= y)%Q -> below (round x) (round y).
Proof.
  intros Hx Hxy.
  assert (Hpos : forall z, (0 < z)%Q -> below (Num 0) (round z)).
  { intros z Hz. rewrite (round_pos z Hz). destruct (Qle_bool _ _); cbn; [lra|].
    rewrite Qred_correct. split; [lra|by apply rounded_nonneg]. }
  destruct (Qlt_le_dec 0 x) as [Hx0|Hx0].
  - pose proof (rounded_mono x y Hx0 Hxy) as Hr.
    pose proof (rounded_nonneg x Hx0) as Hn.
    rewrite (round_pos x Hx0), (round_pos y ltac:(lra)).
    destruct (Qle_bool (2 ^ 1024) (rounded x)) eqn:Ho.
    + apply Qle_bool_iff in Ho.
      assert (Qle_bool (2 ^ 1024) (rounded y) = true) as ->
        by (apply Qle_bool_iff; lra).
      done.
    + destruct (Qle_bool (2 ^ 1024) (rounded y)); cbn; rewrite ?Qred_correct;
        [exact Hn|by split].
  - rewrite (round_zero x) by lra.
    destruct (Qlt_le_dec 0 y); [by apply Hpos|].
    rewrite (round_zero y) by lra. cbn. lra.
Qed.

Lemma round_one : round 1 = Num 1.
Proof. vm_compute. reflexivity. Qed.

(** The literal [0.3]. *)
Lemma round_three_tenths :
  round (3 # 10) = Num (5404319552844595 # 18014398509481984).
Proof. vm_compute. reflexivity. Qed.

Lemma below_finite (a : number) (y : Q) :
  below a (Num y) -> exists x, a = Num x /\ (0 <= x <= y)%Q.
Proof. destruct a as [x| | |]; cbn; try tauto. intros H. by exists x. Qed.

(** The exponential of two attempts, when the later one is finite. *)
Lemma exponential_finite (b : Q) (attempt attempt' : nat) :
  (0 <= b)%Q -> is_double b = true -> (attempt <= attempt')%nat ->
  finite (mul (Num b) (Math_pow_2 attempt')) = true ->
  exists e e',
    mul (Num b) (Math_pow_2 attempt) = Num e
    /\ mul (Num b) (Math_pow_2 attempt') = Num e'
    /\ (b <= e)%Q /\ (e <= e')%Q.
Proof.
  intros Hb Hdouble Hle Hfin.
  assert (Hp' : exists p', Math_pow_2 attempt' = Num p').
  { destruct (Math_pow_2 attempt') as [p'| | |]; [by exists p'|..];
      cbn in Hfin; try destruct (b ?= 0)%Q; discriminate. }
  destruct Hp' as [p' Hp'].
  assert (Hmono : below (Math_pow_2 attempt) (Math_pow_2 attempt')).
  { apply round_mono; [apply Qlt_le_weak, pow2_pos|apply pow2_le; lia]. }
  rewrite Hp' in Hmono, Hfin |- *.
  destruct (below_finite _ _ Hmono) as (p & Hp & Hp0 & Hpp).
  assert (Hone : below (Num 1) (Math_pow_2 attempt)).
  { rewrite <- round_one. apply round_mono; [lra|].
    change 1%Q with (2 ^ 0)%Q. apply pow2_le. lia. }
  rewrite Hp in Hone |- *. destruct Hone as [_ Hp1].
  cbn [mul] in *.
  destruct (round (b * p')) as [e'| | |] eqn:He'; try discriminate.
  assert (Hbp : (b * p <= b * p')%Q).
  { rewrite !(Qmult_comm b). by apply Qmult_le_compat_r. }
  pose proof (round_mono (b * p) (b * p')
                ltac:(by apply Qmult_le_0_compat) Hbp) as Hee.
  rewrite He' in Hee. destruct (below_finite _ _ Hee) as (e & He & He0 & Hee').
  exists e, e'. split; [exact He|]. split; [reflexivity|]. split; [|exact Hee'].
  unfold is_double in Hdouble.
  assert (Hb1 : (b <= b * p)%Q).
  { rewrite <- (Qmult_1_r b) at 1. rewrite !(Qmult_comm b).
    by apply Qmult_le_compat_r. }
  pose proof (round_mono b (b * p) Hb Hb1) as Hbe. rewrite He in Hbe.
  destruct (round b) as [v| | |]; try discriminate.
  apply Qeq_bool_iff in Hdouble. destruct Hbe as [_ Hbe]. lra.
Qed.

(** The jitter added and the clamp applied, for two finite exponentials. *)
Lemma jitter_and_clamp (r m b e e' : Q) :
  (0 <= r < 1)%Q -> is_double b = true -> (0 <= b)%Q -> (b <= m)%Q ->
  (b <= e)%Q -> (e <= e')%Q ->
  let clamped exponential :=
    Math_min
      (add (Num exponential)
           (mul (mul (Num r) (round (3 # 10))) (Num exponential)))
      (Num m) in
  exists d d',
    clamped e = Num d /\ clamped e' = Num d'
    /\ (b <= d)%Q /\ (d <= m)%Q /\ (d <= d')%Q.
Proof.
  intros [Hr0 Hr1] Hdouble Hb Hbm Hbe Hee'. cbv zeta.
  rewrite round_three_tenths. cbn [mul].
  set (c0 := (5404319552844595 # 18014398509481984)%Q).
  assert (Hc0 : (0 <= c0 <= 1)%Q) by (unfold c0; split; [by compute|by compute]).
  assert (Hc : exists c, round (r * c0) = Num c /\ (0 <= c <= 1)%Q).
  { pose proof (round_mono (r * c0) 1) as H. rewrite round_one in H.
    apply below_finite. apply H.
    - apply Qmult_le_0_compat; lra.
    - apply Qle_trans with (1 * c0)%Q; [|lra].
      apply Qmult_le_compat_r; lra. }
  destruct Hc as (c & -> & Hc0' & Hc1). cbn [mul].
  assert (Hv : exists v, round b = Num v /\ (v == b)%Q).
  { unfold is_double in Hdouble. destruct (round b) as [v| | |]; try discriminate.
    exists v. split; [reflexivity|]. by apply Qeq_bool_iff. }
  destruct Hv as (v & Hv & Hvb).
  assert (Hce : (0 <= c * e)%Q) by (apply Qmult_le_0_compat; lra).
  assert (Hcee : (c * e <= c * e')%Q).
  { rewrite !(Qmult_comm c). apply Qmult_le_compat_r; lra. }
  pose proof (round_mono (c * e) (c * e') Hce Hcee) as Hj.
  pose proof (round_mono 0 (c * e) ltac:(lra) Hce) as Hj0.
  rewrite round_zero in Hj0 by reflexivity.
  assert (Hsum : forall x j,
            (b <= x)%Q -> (0 <= j)%Q -> below (Num v) (round (x + j))).
  { intros x j Hx Hj'. rewrite <- Hv. apply round_mono; lra. }
  pose proof (round_mono 0 (c * e') ltac:(lra) ltac:(lra)) as Hpos'.
  rewrite round_zero in Hpos' by reflexivity.
  destruct (round (c * e')) as [j'| | |] eqn:Hj'; cbn in Hj, Hpos'; try tauto.
  - destruct (round (c * e)) as [j| | |] eqn:Hje; cbn in Hj, Hj0; try tauto.
    destruct Hj as [Hj0' Hjj']. cbn [add].
    pose proof (round_mono (e + j) (e' + j') ltac:(lra) ltac:(lra)) as Hs.
    pose proof (Hsum e j Hbe Hj0') as Hlow.
    pose proof (Hsum e' j' ltac:(lra) ltac:(lra)) as Hlow'.
    destruct (round (e' + j')) as [s'| | |]; cbn in Hs, Hlow'; try tauto.
    + destruct (round (e + j)) as [s| | |]; cbn in Hs, Hlow; try tauto.
      cbn [Math_min]. eexists _, _. split; [reflexivity|]. split; [reflexivity|].
      split; [apply Q.min_glb; lra|]. split; [apply Q.le_min_r|].
      apply Q.min_le_compat_r. lra.
    + destruct (round (e + j)) as [s| | |]; cbn in Hs, Hlow; try tauto;
        cbn [Math_min]; eexists _, _; (split; [reflexivity|]);
        (split; [reflexivity|]).
      * split; [apply Q.min_glb; lra|]. split; [apply Q.le_min_r|].
        apply Q.le_min_r.
      * split; [lra|]. split; lra.
  - cbn [add].
    destruct (round (c * e)) as [j| | |] eqn:Hje; cbn in Hj, Hj0; try tauto.
    + cbn [add]. pose proof (Hsum e j Hbe Hj) as Hlow.
      destruct (round (e + j)) as [s| | |]; cbn in Hlow; try tauto;
        cbn [Math_min]; eexists _, _; (split; [reflexivity|]);
        (split; [reflexivity|]).
      * split; [apply Q.min_glb; lra|]. split; [apply Q.le_min_r|].
        apply Q.le_min_r.
      * split; [lra|]. split; lra.
    + cbn [add Math_min]. eexists _, _. split; [reflexivity|].
      split; [reflexivity|]. split; [lra|]. split; lra.
Qed.

(** The backoff of the default configuration for a draw of 0 and for the
    largest draw, the double below 1: 1000 ms, and 1300 ms where exact
    arithmetic gives 1299.99...; and for a draw of 1/2 once [1000 * 2^1015]
    is [Infinity]: the clamp. *)
Example calculateBackoff_draws :
  fst (calculateBackoff (drawing 0) meshy 0 fresh) = inr (Integer 1000)
  /\ fst (calculateBackoff (drawing (9007199254740991 # 9007199254740992))
                           meshy 0 fresh)
     = inr (Integer 1300)
  /\ fst (calculateBackoff (drawing (1 # 2)) meshy 1015 fresh)
     = inr (Integer 10000).
Proof. repeat split; vm_compute; reflexivity. Qed.

(** The exponential of an attempt, for a positive [baseDelay]: a finite
    double, or [Infinity]. *)
Lemma exponential_cases (b : Q) (attempt : nat) :
  (0 < b)%Q ->
  finite (mul (Num b) (Math_pow_2 attempt)) = true
  \/ mul (Num b) (Math_pow_2 attempt) = PosInfinity.
Proof.
  intros Hb.
  assert (Hone : below (Num 1) (Math_pow_2 attempt)).
  { rewrite <- round_one. apply round_mono; [lra|].
    change 1%Q with (2 ^ 0)%Q. apply pow2_le. lia. }
  destruct (Math_pow_2 attempt) as [p| | |]; cbn in Hone; try tauto.
  - cbn [mul].
    pose proof (round_mono 0 (b * p) ltac:(lra)
                  ltac:(apply Qmult_le_0_compat; lra)) as Hpos.
    rewrite round_zero in Hpos by reflexivity.
    destruct (round (b * p)); cbn in Hpos; first [by left | by right | tauto].
  - right. cbn [mul]. apply Qgt_alt in Hb. by rewrite Hb.
Qed.

(** The clamp of an infinite exponential, when the jitter is not [NaN]. *)
Lemma clamp_of_infinity (c m : Q) :
  (0 < c)%Q ->
  Math_min (add PosInfinity (mul (Num c) PosInfinity)) (Num m) = Num m.
Proof. intros Hc. cbn [mul]. apply Qgt_alt in Hc. by rewrite Hc. Qed.

(** C3, amended. For a retry configuration whose [baseDelay] and
    [maxDelay] are finite doubles with [0 <= baseDelay <= maxDelay], and a
    draw in [0, 1): the delay of [calculateBackoff] is an integer between
    the integer part of [baseDelay] ([baseDelay] itself when that is an
    integer) and [maxDelay], and for the same draw it does not decrease as
    the attempt index grows. This holds for every attempt index for which
    [baseDelay * 2^attempt] is a finite double and, where that product is
    [Infinity], as long as neither [baseDelay] nor [Math.random() * 0.3] is
    0; in the cases left the delay is [NaN]. *)
Theorem calculateBackoff_bounds E this attempt attempt' w b m :
  baseDelay (retryConfig this) = Num b ->
  maxDelay (retryConfig this) = Num m ->
  is_double b = true ->
  (0 <= b <= m)%Q ->
  (0 <= random E (drawn w) < 1)%Q ->
  (attempt <= attempt')%nat ->
  finite (mul (Num b) (Math_pow_2 attempt')) = true
  \/ ((0 < b)%Q
      /\ exists c, mul (Num (random E (drawn w))) (round (3 # 10)) = Num c
                   /\ (0 < c)%Q) ->
  exists delay delay',
    fst (calculateBackoff E this attempt w) = inr (Integer delay)
    /\ fst (calculateBackoff E this attempt' w) = inr (Integer delay')
    /\ Qfloor b <= delay
    /\ (inject_Z (Qfloor b) == b -> b <= inject_Z delay)%Q
    /\ (inject_Z delay <= m)%Q
    /\ delay <= delay'.
Proof.
  intros Hb Hm Hdouble [Hb0 Hbm] Hr Hle Hcases.
  set (clamped := fun exponential =>
         Math_min
           (add exponential
                (mul (mul (Num (random E (drawn w))) (round (3 # 10)))
                     exponential))
           (Num m)).
  set (bounded := exists d d',
         clamped (mul (Num b) (Math_pow_2 attempt)) = Num d
         /\ clamped (mul (Num b) (Math_pow_2 attempt')) = Num d'
         /\ (b <= d)%Q /\ (d <= m)%Q /\ (d <= d')%Q).
  assert (Hfinite : finite (mul (Num b) (Math_pow_2 attempt')) = true ->
                    bounded).
  { intros Hfin.
    destruct (exponential_finite b attempt attempt' Hb0 Hdouble Hle Hfin)
      as (e & e' & He & He' & Hbe & Hee').
    destruct (jitter_and_clamp (random E (drawn w)) m b e e'
                Hr Hdouble Hb0 Hbm Hbe Hee')
      as (d & d' & Hd & Hd' & Hbounds).
    exists d, d'. rewrite He, He'. split; [exact Hd|].
    split; [exact Hd'|exact Hbounds]. }
  assert (Hclamped : bounded).
  { destruct Hcases as [Hfin|(Hpos & c & Hc & Hc0)]; [by apply Hfinite|].
    destruct (exponential_cases b attempt' Hpos) as [Hfin|Hinf'];
      [by apply Hfinite|].
    unfold bounded, clamped.
    rewrite Hinf', Hc, (clamp_of_infinity c m Hc0).
    destruct (exponential_cases b attempt Hpos) as [Hfin|Hinf].
    - destruct (exponential_finite b attempt attempt Hb0 Hdouble
                  ltac:(lia) Hfin) as (e & _ & He & _ & Hbe & _).
      destruct (jitter_and_clamp (random E (drawn w)) m b e e
                  Hr Hdouble Hb0 Hbm Hbe ltac:(lra))
        as (d & _ & Hd & _ & Hbd & Hdm & _).
      exists d, m. rewrite He. rewrite Hc in Hd. split; [exact Hd|].
      split; [reflexivity|]. split; [exact Hbd|]. split; [exact Hdm|exact Hdm].
    - rewrite Hinf, (clamp_of_infinity c m Hc0). exists m, m.
      split; [reflexivity|]. split; [reflexivity|]. split; [exact Hbm|].
      split; lra. }
  clear Hfinite. unfold bounded, clamped in Hclamped.
  destruct Hclamped as (d & d' & Hd & Hd' & Hbd & Hdm & Hdd').
  exists (Qfloor d), (Qfloor d').
  unfold calculateBackoff, bind, Math_random, ret. cbn [fst].
  rewrite Hb, Hm, Hd, Hd'. cbn [Math_floor].
  split; [reflexivity|]. split; [reflexivity|].
  pose proof (Qfloor_resp_le b d Hbd) as Hfloor.
  split; [exact Hfloor|]. split.
  - intros Hint. rewrite <- Hint. by rewrite <- Zle_Qle.
  - split; [|by apply Qfloor_resp_le].
    eapply Qle_trans; [apply Qfloor_le|exact Hdm].
Qed.

Lemma calculateBackoff_bounds_witness :
  exists delay delay',
    fst (calculateBackoff always_401 meshy 0 fresh) = inr (Integer delay)
    /\ fst (calculateBackoff always_401 meshy 2 fresh) = inr (Integer delay')
    /\ 1000 <= delay
    /\ (inject_Z 1000 == 1000 -> 1000 <= inject_Z delay)%Q
    /\ (inject_Z delay <= 10000)%Q
    /\ delay <= delay'.
Proof.
  apply (calculateBackoff_bounds always_401 meshy 0 2 fresh 1000 10000).
  - reflexivity.
  - reflexivity.
  - vm_compute. reflexivity.
  - split; by compute.
  - split; by compute.
  - lia.
  - left. vm_compute. reflexivity.
Defined.

(** C3 as stated fails. With the default configuration and a draw of 0,
    [1000 * 2^1015] is [Infinity], the jitter [0 * Infinity] is [NaN] and
    so is the delay, which lies in no interval; one attempt earlier the
    delay is still the clamp. And a [baseDelay] of 1000.5 gives, for a draw
    of 0, a delay of 1000, below [baseDelay]. *)
Lemma calculateBackoff_not_a_number :
  fst (calculateBackoff (drawing 0) meshy 1014 fresh) = inr (Integer 10000)
  /\ fst (calculateBackoff (drawing 0) meshy 1015 fresh) = inr NotANumber
  /\ fst (calculateBackoff (drawing 0) half_a_millisecond 0 fresh)
     = inr (Integer 1000).
Proof. repeat split; vm_compute; reflexivity. Qed.

(** ** The rate window under schedules *)

Import Schedule.

Ltac window_arith :=
  unfold RATE_LIMITS_pro_requestsPerSecond, rateLimitWindow in *; simpl length in *; lia.

Lemma in_window_mono t t' l : t <= t' -> (in_window t' l <= in_window t l)%nat.
Proof.
  intros Ht. unfold in_window. induction l as [|x l IH]; [done|].
  rewrite !filter_cons. repeat case_decide; simpl; window_arith.
Qed.

Lemma in_window_le_length t l : (in_window t l <= length l)%nat.
Proof. apply length_filter. Qed.

Lemma in_window_push t l :
  in_window t (l ++ [t]) = S (in_window t l).
Proof.
  unfold in_window. rewrite filter_app, length_app, filter_cons_True.
  - simpl. window_arith.
  - unfold rateLimitWindow. window_arith.
Qed.

Lemma in_window_expired t oldest rest :
  oldest + rateLimitWindow <= t -> in_window t (oldest :: rest) = in_window t rest.
Proof. intros H. unfold in_window. rewrite filter_cons_False; [done|window_arith]. Qed.

Lemma settled_bound busy s :
  settled busy s ->
  (in_window (last s) (times s) <= RATE_LIMITS_pro_requestsPerSecond)%nat.
Proof.
  destruct busy as [call|]; simpl.
  - intros (woke & _ & _ & Hlen & _). pose proof (in_window_le_length (last s) (times s)). window_arith.
  - tauto.
Qed.

Lemma step_settled busy s e rest s' :
  settled busy s -> one_at_a_time busy (e :: rest) = true -> step s e = Some s' ->
  exists busy', settled busy' s' /\ one_at_a_time busy' rest = true.
Proof.
  intros Hinv Hseq Hstep. destruct e as [call now|call time|call]; simpl in Hseq, Hstep.
  - destruct busy as [|]; [discriminate|]. destruct Hinv as [Hempty Hbound].
    case_decide as Hguard; [|discriminate]. destruct Hguard as [Hnow _].
    injection Hstep as <-. exists (Some call). split; [|exact Hseq].
    match goal with |- context [checkRateLimit ?w0] =>
      destruct (checkRateLimit_spec w0) as (w1 & tr & Hc & Hrt & _ & _ & _ & _ & _ & _ & Hclock & Hfull) end.
    rewrite Hc. unfold settled. cbn [snd times inflight last].
    exists (clock w1). rewrite Hempty, insert_empty. cbn [clock requestTimes] in *.
    split; [done|]. split; [done|]. split.
    + rewrite Hrt. pose proof (in_window_mono _ _ (times s) Hnow). unfold in_window in *. window_arith.
    + intros Hlen. destruct (Hfull Hlen) as (oldest & Hold & Hwoke).
      destruct (requestTimes w1) as [|x rest'] eqn:Hw; [discriminate|].
      injection Hold as ->. exists oldest, rest'. split; [done|]. window_arith.
  - destruct busy as [call'|]; [|discriminate].
    apply andb_true_iff in Hseq as [Hcall Hseq]. apply bool_decide_eq_true in Hcall as <-.
    destruct Hinv as (woke & Hfl & Hlast & Hlen & Hfull).
    rewrite Hfl, lookup_singleton_eq in Hstep.
    case_decide as Hguard; [|discriminate]. destruct Hguard as [Hwoke Htime].
    injection Hstep as <-. exists None. split; [|exact Hseq].
    unfold settled. cbn [times inflight last].
    rewrite delete_singleton_eq. split; [done|].
    rewrite in_window_push.
    destruct (decide (RATE_LIMITS_pro_requestsPerSecond <= length (times s))%nat) as [Hat|Hbelow].
    + destruct (Hfull Hat) as (oldest & rest' & Heq & Hexp).
      rewrite Heq in *. rewrite in_window_expired by window_arith.
      pose proof (in_window_le_length time rest'). simpl in Hlen. window_arith.
    + pose proof (in_window_le_length time (times s)). window_arith.
  - destruct busy as [call'|]; [|discriminate].
    apply andb_true_iff in Hseq as [Hcall Hseq]. apply bool_decide_eq_true in Hcall as <-.
    destruct Hinv as (woke & Hfl & Hlast & Hlen & Hfull).
    rewrite Hfl, lookup_singleton_eq in Hstep.
    injection Hstep as <-. exists None. split; [|exact Hseq].
    unfold settled. cbn [times inflight last].
    rewrite delete_singleton_eq. split; [done|].
    pose proof (in_window_le_length (last s) (times s)). window_arith.
Qed.

Lemma run_settled sched busy s s' :
  settled busy s -> one_at_a_time busy sched = true -> run sched s = Some s' ->
  exists busy', settled busy' s'.
Proof.
  revert busy s. induction sched as [|e rest IH]; intros busy s Hinv Hseq Hrun.
  - injection Hrun as <-. eauto.
  - simpl in Hrun. destruct (step s e) as [s1|] eqn:Hstep; [|discriminate].
    destruct (step_settled _ _ _ _ _ Hinv Hseq Hstep) as (busy' & Hinv' & Hseq').
    eauto.
Qed.





(** The same bound for calls of the embedded [request]. *)

Lemma steady_same {A} (m : M A) :
  (forall w, clock (snd (m w)) = clock w) -> steady m.
Proof. intros H w. rewrite H. lia. Qed.

Lemma steady_bind {A B} (m : M A) (k : A -> M B) :
  steady m -> (forall a, steady (k a)) -> steady (bind m k).
Proof.
  intros Hm Hk w. unfold bind. specialize (Hm w).
  destruct (m w) as [[e|a] w1]; simpl in *; [done|].
  specialize (Hk a w1). lia.
Qed.

Lemma steady_try_catch {A} (body : M A) handler :
  steady body -> (forall e, steady (handler e)) -> steady (try_catch body handler).
Proof.
  intros Hm Hk w. unfold try_catch. specialize (Hm w).
  destruct (body w) as [[e|a] w1]; simpl in *; [|done].
  specialize (Hk e w1). lia.
Qed.

Lemma steady_fetch E url : steady (fetch E url).
Proof. intros w. unfold fetch. destruct (net E _); simpl; lia. Qed.

Lemma steady_sleep ms : steady (sleep ms).
Proof. intros w. simpl. lia. Qed.

Lemma steady_handleErrorResponse this r attempt :
  steady (handleErrorResponse this r attempt).
Proof.
  intros w. destruct (handleErrorResponse_throws this r attempt) as (err & tr & He & _).
  rewrite He. simpl. lia.
Qed.

Lemma steady_request_loop E this url n attempt last :
  steady (request_loop E this url n attempt last).
Proof.
  revert attempt last. induction n as [|n IH]; intros attempt last; cbn [request_loop].
  - by apply steady_same.
  - apply steady_try_catch.
    + apply steady_bind; [apply steady_fetch|]. intros r.
      apply steady_bind.
      { destruct (negb (ok r)); [|by apply steady_same].
        apply steady_bind; [apply steady_handleErrorResponse|]. intros []. }
      intros _. apply steady_bind; [by apply steady_same|]. intros now.
      apply steady_bind; [by apply steady_same|]. intros _.
      apply steady_bind; [by apply steady_same|]. intros times.
      apply steady_bind; [by apply steady_same|]. intros _.
      unfold response_json. destruct (json r); by apply steady_same.
    + intros e. apply steady_bind; [|intros _; apply IH].
      destruct (_ <? _)%nat; [|by apply steady_same].
      apply steady_bind; [by apply steady_same|]. intros delay.
      apply steady_bind; [by apply steady_same|]. intros _. apply steady_sleep.
Qed.

Lemma checkRateLimit_frame w w0 :
  clock w = clock w0 -> requestTimes w = requestTimes w0 ->
  clock (snd (checkRateLimit w)) = clock (snd (checkRateLimit w0))
  /\ requestTimes (snd (checkRateLimit w)) = requestTimes (snd (checkRateLimit w0)).
Proof.
  destruct w as [c rt f d t], w0 as [c0 rt0 f0 d0 t0].
  cbn [clock requestTimes]. intros -> ->.
  unfold checkRateLimit, bind, emit, Date_now, set_requestTimes.
  cbn [clock requestTimes fetched drawn trace].
  destruct (_ <=? _)%nat; [|done].
  destruct (_ !! 0%nat); [|done].
  case_decide; done.
Qed.

(** A call of [request] is a call of a schedule: its admission check and then
    either the push of its success or its failure. *)
Lemma request_is_a_scheduled_call E this endpoint w s call :
  (forall i r, net E i = Reply r -> ok r = true -> is_Some (json r)) ->
  times s = requestTimes w -> last s <= clock w -> inflight s !! call = None ->
  exists outcome s',
    run [Admission call (clock w); outcome] s = Some s'
    /\ outcome = match request E this endpoint w with
                 | (inr _, w') => Completion call (clock w')
                 | (inl _, _) => Failure call
                 end
    /\ times s' = requestTimes (snd (request E this endpoint w))
    /\ last s' <= clock (snd (request E this endpoint w))
    /\ inflight s' = inflight s.
Proof.
  intros Hdec Htimes Hlast Hfree.
  pose proof (checkRateLimit_frame w
                {| clock := clock w; requestTimes := times s;
                   fetched := 0; drawn := 0; trace := [] |} eq_refl (eq_sym Htimes))
    as [Hclock Hkept].
  unfold request, bind.
  destruct (checkRateLimit_spec w)
    as (w1 & tr & Hc & _ & _ & _ & _ & _ & _ & _ & Hle & _).
  rewrite Hc in *. cbn [snd] in Hclock, Hkept.
  pose proof (steady_request_loop E this (baseUrl this +:+ endpoint)
                (S (maxRetries (retryConfig this))) 0 None w1) as Hsteady.
  destruct (request_loop_accounting E this (baseUrl this +:+ endpoint)
              (S (maxRetries (retryConfig this))) 0 None w1 Hdec)
    as (res & w' & Hrun & Hres).
  rewrite Hrun in *. cbn [snd] in Hsteady |- *.
  assert (delete call (<[call:=clock w1]> (inflight s)) = inflight s) as Hback
    by (rewrite delete_insert_eq; by apply delete_id).
  destruct res as [err|payload]; destruct Hres as [_ Hrt];
    eexists _, _; (split; [|split; [reflexivity|]]).
  - cbn [run step]. rewrite decide_True by done.
    cbn [inflight]. rewrite lookup_insert_eq. reflexivity.
  - cbn [times last inflight]. rewrite <- Hclock, Hback.
    repeat split; [congruence|lia].
  - cbn [run step]. rewrite decide_True by done.
    cbn [inflight last]. rewrite lookup_insert_eq, decide_True; [reflexivity|].
    rewrite <- Hclock. lia.
  - cbn [times last inflight]. rewrite <- Hclock, Hback.
    repeat split; [congruence|lia].
Qed.

(** Calls of [request] made one after the other, each after some idle time,
    keep the window within the ceiling. *)
Lemma sequential_requests_within_ceiling E this calls w :
  (forall i r, net E i = Reply r -> ok r = true -> is_Some (json r)) ->
  (in_window (clock w) (requestTimes w) <= RATE_LIMITS_pro_requestsPerSecond)%nat ->
  let w' := run_requests E this calls w in
  (in_window (clock w') (requestTimes w') <= RATE_LIMITS_pro_requestsPerSecond)%nat.
Proof.
  intros Hdec. revert w. induction calls as [|[idle endpoint] calls IH]; intros w Hw.
  - exact Hw.
  - cbn [run_requests]. apply IH.
    set (w0 := snd (advance (Z.of_nat idle) w)).
    set (s := {| times := requestTimes w; inflight := ∅; last := clock w |}).
    destruct (request_is_a_scheduled_call E this endpoint w0 s 0%nat Hdec)
      as (outcome & s' & Hrun & Hout & Htimes & Hlast & Hfl).
    + reflexivity.
    + subst w0. simpl. lia.
    + apply lookup_empty.
    + assert (one_at_a_time None [Admission 0%nat (clock w0); outcome] = true) as Hseq.
      { rewrite Hout. destruct (request E this endpoint w0) as [[?|?] ?]; reflexivity. }
      destruct (run_settled _ None s s' (conj eq_refl Hw) Hseq Hrun) as [busy Hs'].
      apply settled_bound in Hs'. rewrite <- Htimes.
      pose proof (in_window_mono _ _ (times s') Hlast). lia.
Qed.

(** ** Pollers *)

Import TextTo3D Animations.

(** A task that is pending, then in progress, then done: three fetches. *)
Example pollTask_succeeds :
  let E := scripted [object_reply 200 [("id", "t1"); ("status", "PENDING")];
                     object_reply 200 [("id", "t1"); ("status", "IN_PROGRESS")]]
                    (object_reply 200 [("id", "t1"); ("status", "SUCCEEDED")]) in
  fst (pollTask E meshy "t1" 60 10000 fresh)
  = inr (list_to_map [("id", "t1"); ("status", "SUCCEEDED")])
  /\ fetched (snd (pollTask E meshy "t1" 60 10000 fresh)) = 3%nat.
Proof. split; vm_compute; reflexivity. Qed.

(** An animation task that is canceled. *)
Example pollAnimationTask_canceled :
  fst (pollAnimationTask always_canceled meshy "t1" 60 10000 fresh)
  = inl (Error "Animation task t1 failed: CANCELED").
Proof. vm_compute. reflexivity. Qed.

Lemma sleep_resolves ms w : sleep ms w = (inr tt, snd (sleep ms w)).
Proof. reflexivity. Qed.

Lemma pollTask_waits E this taskId intervalMs k n w w1 :
  waits (getTask E this taskId true) terminal_text_to_3d intervalMs k w w1 ->
  pollTask E this taskId (k + n) intervalMs w = pollTask E this taskId n intervalMs w1.
Proof.
  induction 1 as [w|k w task w1 w2 Hfetch Hnon _ IH]; [done|].
  cbn [Nat.add pollTask]. unfold bind at 1. rewrite Hfetch.
  unfold terminal_text_to_3d in Hnon.
  repeat case_decide; try tauto; exact IH.
Qed.

Lemma pollAnimationTask_waits E this taskId intervalMs k n w w1 :
  waits (getAnimationTask E this taskId) terminal_animation intervalMs k w w1 ->
  pollAnimationTask E this taskId (k + n) intervalMs w
  = pollAnimationTask E this taskId n intervalMs w1.
Proof.
  induction 1 as [w|k w task w1 w2 Hfetch Hnon _ IH]; [done|].
  cbn [Nat.add pollAnimationTask]. unfold bind at 1. rewrite Hfetch.
  unfold terminal_animation in Hnon.
  repeat case_decide; try tauto; exact IH.
Qed.

(** C4, amended. Whenever [pollTask] observes, within its [maxRetries]
    ticks, a task whose status is [FAILED] or [EXPIRED], it stops and fails
    with [Task <id> failed with status: <status>]; whenever
    [pollAnimationTask] observes [FAILED] or [CANCELED], it stops and fails
    with [Animation task <id> failed: <status>]. These are the failure
    statuses the task type of each poller declares. *)
Theorem poll_fails_on_declared_failure E this taskId intervalMs maxRetries k w w1 task w2 status :
  (k < maxRetries)%nat ->
  task !! "status" = Some status ->
  (waits (getTask E this taskId true) terminal_text_to_3d intervalMs k w w1 ->
   getTask E this taskId true w1 = (inr task, w2) ->
   status = "FAILED" \/ status = "EXPIRED" ->
   pollTask E this taskId maxRetries intervalMs w
   = (inl (Error ("Task " +:+ taskId +:+ " failed with status: " +:+ status)), w2))
  /\ (waits (getAnimationTask E this taskId) terminal_animation intervalMs k w w1 ->
      getAnimationTask E this taskId w1 = (inr task, w2) ->
      status = "FAILED" \/ status = "CANCELED" ->
      pollAnimationTask E this taskId maxRetries intervalMs w
      = (inl (Error ("Animation task " +:+ taskId +:+ " failed: " +:+ status)), w2)).
Proof.
  intros Hk Hst. replace maxRetries with (k + S (maxRetries - S k))%nat by lia. split.
  - intros Hw Hfetch Hfail. rewrite (pollTask_waits _ _ _ _ _ _ _ _ Hw).
    cbn [pollTask]. unfold bind at 1. rewrite Hfetch, Hst.
    destruct Hfail as [-> | ->]; repeat case_decide; try done; naive_solver.
  - intros Hw Hfetch Hfail. rewrite (pollAnimationTask_waits _ _ _ _ _ _ _ _ Hw).
    cbn [pollAnimationTask]. unfold bind at 1. rewrite Hfetch, Hst.
    destruct Hfail as [-> | ->]; repeat case_decide; try done; naive_solver.
Qed.

Lemma poll_fails_on_declared_failure_witness :
  exists w',
    pollTask pending_then_failed meshy "t1" 60 10000 fresh
    = (inl (Error "Task t1 failed with status: FAILED"), w').
Proof.
  eexists.
  eapply (proj1 (poll_fails_on_declared_failure pending_then_failed meshy "t1"
                   10000 60 1 fresh _
                   (list_to_map [("id", "t1"); ("status", "FAILED")]) _ "FAILED"
                   ltac:(lia) eq_refl)).
  - eapply waits_tick; [reflexivity| |apply waits_done].
    intros [H|[H|H]]; vm_compute in H; discriminate H.
  - reflexivity.
  - left. reflexivity.
Defined.

(** C4 as stated fails: [pollTask] observes [CANCELED] at every tick, keeps
    polling, and ends with the timeout error, which names no status. *)
Lemma pollTask_ignores_canceled :
  (exists task w1,
     getTask always_canceled meshy "t1" true fresh = (inr task, w1)
     /\ task !! "status" = Some "CANCELED")
  /\ fst (pollTask always_canceled meshy "t1" 3 10000 fresh)
     = inl (Error "Task t1 timed out")
  /\ fetched (snd (pollTask always_canceled meshy "t1" 3 10000 fresh)) = 3%nat.
Proof.
  split; [eexists _, _; split; [reflexivity|]; vm_compute; reflexivity|].
  split; vm_compute; reflexivity.
Qed.

(** C5, amended. When [pollTask] observes no terminal status in any of its
    [maxRetries] ticks, it fails with [Task <id> timed out]: the error
    carries the task id, and no status. *)
Theorem pollTask_times_out E this taskId intervalMs maxRetries w w' :
  waits (getTask E this taskId true) terminal_text_to_3d intervalMs maxRetries w w' ->
  pollTask E this taskId maxRetries intervalMs w
  = (inl (Error ("Task " +:+ taskId +:+ " timed out")), w').
Proof.
  intros Hw. pose proof (pollTask_waits _ _ _ _ _ 0%nat _ _ Hw) as Hrun.
  rewrite Nat.add_0_r in Hrun. by rewrite Hrun.
Qed.

Lemma pollTask_times_out_witness :
  exists w',
    pollTask always_pending meshy "t1" 2 10000 fresh
    = (inl (Error "Task t1 timed out"), w').
Proof.
  eexists.
  apply (pollTask_times_out always_pending meshy "t1" 10000 2 fresh).
  eapply waits_tick; [reflexivity| |].
  { intros [H|[H|H]]; vm_compute in H; discriminate H. }
  eapply waits_tick; [reflexivity| |apply waits_done].
  intros [H|[H|H]]; vm_compute in H; discriminate H.
Defined.

(** C5 as stated fails: a poll that last observed [PENDING] and one that
    last observed [IN_PROGRESS] time out with the same error. *)
Lemma timeout_error_omits_status :
  fst (pollTask always_pending meshy "t1" 2 10000 fresh)
  = inl (Error "Task t1 timed out")
  /\ fst (pollTask always_in_progress meshy "t1" 2 10000 fresh)
     = inl (Error "Task t1 timed out").
Proof. split; vm_compute; reflexivity. Qed.

Lemma not_ok_404 r : status r = 404 -> ok r = false.
Proof. intros H. unfold ok. rewrite H. reflexivity. Qed.

Lemma sleep_log_app a b : sleep_log (a ++ b) = sleep_log a ++ sleep_log b.
Proof. apply omap_app. Qed.

Lemma getTask_loop_absorbs E this taskId maxRetries remaining k attempt w :
  (forall i, (i < k)%nat ->
             exists r, net E (fetched w + i) = Reply r /\ status r = 404) ->
  (attempt + k <= maxRetries)%nat ->
  exists w1,
    getTask_loop E this taskId maxRetries (k + remaining) attempt w
    = getTask_loop E this taskId maxRetries remaining (attempt + k) w1
    /\ fetched w1 = (fetched w + k)%nat
    /\ sleep_log (trace w1)
       = sleep_log (trace w)
         ++ map (fun i => 2000 * (Z.of_nat i + 1)) (seq attempt k).
Proof.
  revert attempt w. induction k as [|k IH]; intros attempt w Hnet Hle.
  - exists w. rewrite !Nat.add_0_r, app_nil_r. done.
  - destruct (Hnet 0%nat) as (r & Hr & Hs); [lia|]. rewrite Nat.add_0_r in Hr.
    cbn [Nat.add getTask_loop]. unfold bind at 1, fetch at 1. rewrite Hr.
    rewrite (not_ok_404 r Hs).
    rewrite bool_decide_eq_true_2 by done.
    replace (attempt <? maxRetries)%nat with true
      by (symmetry; apply Nat.ltb_lt; lia).
    cbn [andb]. unfold bind at 1. rewrite sleep_resolves.
    match goal with |- context [getTask_loop _ _ _ _ _ _ ?w0] =>
      destruct (IH (S attempt) w0) as (w1 & Heq & Hf & Hl) end.
    + intros i Hi. cbn [fetched sleep bind emit advance snd].
      destruct (Hnet (S i)) as (r' & Hr' & Hs'); [lia|].
      exists r'. split; [|done]. rewrite <- Hr'. f_equal. lia.
    + lia.
    + exists w1. rewrite Heq. split; [f_equal; lia|].
      cbn [fetched trace sleep bind emit advance snd] in Hf, Hl.
      split; [lia|]. rewrite Hl, !sleep_log_app. cbn [seq map].
      rewrite <- !app_assoc. reflexivity.
Qed.





(** ** Error classification *)




(** ** Retexture *)

Import Retexture.

(** C10. [createRetextureTask] validates before any request: when neither
    [input_task_id] nor [model_url] is supplied (absent or empty), or
    neither [text_style_prompt] nor [image_style_url] is, it rejects with
    the error that names the missing pair, whatever the request callback
    is, and leaves the world as it was: the callback did not run. *)
Theorem createRetextureTask_validates this params makeRequestWithRetry w :
  (falsy (input_task_id params) = true /\ falsy (model_url params) = true ->
   createRetextureTask this params makeRequestWithRetry w
   = (inl (Error "Either input_task_id or model_url is required"), w))
  /\ (falsy (text_style_prompt params) = true
      /\ falsy (image_style_url params) = true ->
      exists message,
        createRetextureTask this params makeRequestWithRetry w
        = (inl (Error message), w)
        /\ (message = "Either input_task_id or model_url is required"
            \/ message = "Either text_style_prompt or image_style_url is required")).
Proof.
  unfold createRetextureTask. split.
  - intros [-> ->]. reflexivity.
  - intros [-> ->].
    destruct (falsy (input_task_id params) && falsy (model_url params));
      eexists; (split; [reflexivity|]); tauto.
Qed.

Lemma createRetextureTask_validates_witness :
  createRetextureTask meshy no_input marking_callback fresh
  = (inl (Error "Either input_task_id or model_url is required"), fresh).
Proof.
  apply (createRetextureTask_validates meshy no_input marking_callback fresh).
  split; reflexivity.
Defined.

(** * Further properties *)

Import Scenarios.

(** ** The retry loop, attempt by attempt *)

(** A 2xx reply whose body does not decode: its time is pushed, then
    [response.json()] rejects and the loop goes on. *)
Lemma undecodable_attempt E this url n attempt last w r :
  net E (fetched w) = Reply r -> ok r = true -> json r = None ->
  exists w2,
    request_loop E this url (S n) attempt last w
    = request_loop E this url n (S attempt)
        (Some (Error "SyntaxError: invalid json response body")) w2
    /\ fetched w2 = S (fetched w)
    /\ attempts (trace w2) = S (attempts (trace w))
    /\ admits (trace w2) = admits (trace w)
    /\ pushes (trace w2) = S (pushes (trace w))
    /\ length (requestTimes w2) = S (length (requestTimes w))
    /\ drawn w2
       = (drawn w + if (attempt <? maxRetries (retryConfig this))%nat
                    then 1 else 0)%nat.
Proof.
  intros Hnet Hok Hjson. cbn [request_loop].
  unfold try_catch at 1. unfold bind at 1, fetch at 1. rewrite Hnet, Hok.
  cbn [negb]. unfold bind at 1, ret at 1. unfold bind at 1, Date_now at 1.
  unfold bind at 1, emit at 1. unfold bind at 1. unfold bind at 1, set_requestTimes at 1.
  unfold response_json. rewrite Hjson. unfold throw at 1.
  cbn [clock requestTimes fetched drawn trace].
  match goal with |- context [bind ?m ?k ?w'] =>
    destruct (backoff_before_retry E this attempt w')
      as (w2 & Hb & Hp & Hf & Ha & Hd) end.
  exists w2. unfold bind at 1. rewrite Hb. split; [reflexivity|].
  destruct (preserves_counts _ _ Hp) as [Hadm Hpush]. destruct Hp as [Hrt _].
  cbn [clock requestTimes fetched drawn trace] in *.
  rewrite Hf, Ha, Hadm, Hpush, Hrt, Hd, length_app.
  unfold attempts, admits, pushes. rewrite !count_app. unfold count. simpl.
  repeat split; lia.
Qed.

(** One iteration of the loop: it resolves on a 2xx reply that decodes, and
    else goes on to the next attempt. *)
Lemma attempt_step E this url n attempt last w :
  (exists o w',
     request_loop E this url (S n) attempt last w = (inr o, w')
     /\ ok_reply E (fetched w) = true
     /\ fetched w' = S (fetched w)
     /\ attempts (trace w') = S (attempts (trace w))
     /\ admits (trace w') = admits (trace w)
     /\ pushes (trace w') = S (pushes (trace w))
     /\ length (requestTimes w') = S (length (requestTimes w))
     /\ drawn w' = drawn w)
  \/ (exists err w2,
        request_loop E this url (S n) attempt last w
        = request_loop E this url n (S attempt) (Some err) w2
        /\ fetched w2 = S (fetched w)
        /\ attempts (trace w2) = S (attempts (trace w))
        /\ admits (trace w2) = admits (trace w)
        /\ pushes (trace w2)
           = (pushes (trace w) + if ok_reply E (fetched w) then 1 else 0)%nat
        /\ length (requestTimes w2)
           = (length (requestTimes w)
              + if ok_reply E (fetched w) then 1 else 0)%nat
        /\ drawn w2
           = (drawn w + if (attempt <? maxRetries (retryConfig this))%nat
                        then 1 else 0)%nat).
Proof.
  unfold ok_reply.
  destruct (net E (fetched w)) as [m|r] eqn:Hnet; [|destruct (ok r) eqn:Hok;
    [destruct (json r) as [o|] eqn:Hjson|]].
  - right.
    destruct (failed_attempt E this url n attempt last w)
      as (err & w2 & Heq & _ & Hp & Hf & Ha & Hd); [by rewrite Hnet|].
    destruct (preserves_counts _ _ Hp) as [Hadm Hpush]. destruct Hp as [Hrt _].
    exists err, w2. rewrite Hrt, Hpush. repeat split; try done; lia.
  - left. eexists _, _. split; [by eapply successful_attempt|].
    cbn [clock requestTimes fetched drawn trace]. rewrite length_app.
    unfold attempts, admits, pushes. rewrite !count_app. unfold count. simpl.
    repeat split; lia.
  - right.
    destruct (undecodable_attempt E this url n attempt last w r Hnet Hok Hjson)
      as (w2 & Heq & Hf & Ha & Hadm & Hpush & Hlen & Hd).
    eexists _, w2. split; [exact Heq|]. repeat split; try done; lia.
  - right.
    destruct (failed_attempt E this url n attempt last w)
      as (err & w2 & Heq & _ & Hp & Hf & Ha & Hd); [by rewrite Hnet|].
    destruct (preserves_counts _ _ Hp) as [Hadm Hpush]. destruct Hp as [Hrt _].
    exists err, w2. rewrite Hrt, Hpush. repeat split; try done; lia.
Qed.

Lemma request_loop_ledger E this url n attempt last w :
  let w' := snd (request_loop E this url n attempt last w) in
  exists sent,
    fetched w' = (fetched w + sent)%nat
    /\ (sent <= n)%nat
    /\ (n = 0%nat \/ 1 <= sent)%nat
    /\ attempts (trace w') = (attempts (trace w) + sent)%nat
    /\ admits (trace w') = admits (trace w)
    /\ pushes (trace w') = (pushes (trace w) + ok_replies E (fetched w) sent)%nat
    /\ length (requestTimes w')
       = (length (requestTimes w) + ok_replies E (fetched w) sent)%nat.
Proof.
  revert attempt last w. induction n as [|n IH]; intros attempt last w.
  - exists 0%nat. simpl. repeat split; lia.
  - destruct (attempt_step E this url n attempt last w)
      as [(o & w1 & Heq & Hok & Hf & Ha & Hadm & Hpush & Hlen & _)
         |(err & w2 & Heq & Hf & Ha & Hadm & Hpush & Hlen & _)].
    + exists 1%nat. cbv zeta. rewrite Heq. cbn [snd ok_replies]. rewrite Hok.
      repeat split; lia.
    + cbv zeta. rewrite Heq.
      destruct (IH (S attempt) (Some err) w2)
        as (sent & Hf' & Hle & _ & Ha' & Hadm' & Hpush' & Hlen').
      exists (S sent). cbn [ok_replies]. rewrite Hf in *.
      repeat split; lia.
Qed.

(** ** The request executor, in general *)

(** [request] makes between one and [maxRetries + 1] network attempts, after
    one admission check, and appends one timestamp to the pruned window for
    every 2xx reply it receives, also for one whose body does not decode
    and whose attempt is retried. *)
Theorem request_records_every_2xx_reply E this endpoint w :
  let w' := snd (request E this endpoint w) in
  exists sent,
    fetched w' = (fetched w + sent)%nat
    /\ (1 <= sent <= S (maxRetries (retryConfig this)))%nat
    /\ attempts (trace w') = (attempts (trace w) + sent)%nat
    /\ admits (trace w') = S (admits (trace w))
    /\ pushes (trace w') = (pushes (trace w) + ok_replies E (fetched w) sent)%nat
    /\ length (requestTimes w')
       = (length (filter (fun time => (clock w - time < rateLimitWindow)%Z)
                         (requestTimes w))
          + ok_replies E (fetched w) sent)%nat.
Proof.
  cbv zeta. unfold request, bind.
  destruct (checkRateLimit_spec w)
    as (w1 & tr & Hc & Hrt & Hf & _ & Ht & Hadm & Hatt & Hpush & _).
  rewrite Hc.
  destruct (request_loop_ledger E this (baseUrl this +:+ endpoint)
              (S (maxRetries (retryConfig this))) 0 None w1)
    as (sent & Hf' & Hle & Hge & Ha' & Hadm' & Hpush' & Hlen').
  exists sent. rewrite Hf', Ha', Hadm', Hpush', Hlen', Hf, Hrt, Ht.
  unfold attempts, admits, pushes in *. rewrite !count_app.
  unfold count in *. simpl. repeat split; lia.
Qed.

Lemma request_loop_all_fail E this url n attempt last w :
  (attempt + S n = S (maxRetries (retryConfig this)))%nat ->
  (forall i, (fetched w <= i < fetched w + S n)%nat -> ok_reply E i = false) ->
  exists err w',
    request_loop E this url (S n) attempt last w = (inl err, w')
    /\ fetched w' = (fetched w + S n)%nat
    /\ drawn w' = (drawn w + n)%nat
    /\ preserves w w'
    /\ match net E (fetched w + n) with
       | NetworkFailure m => err = Error m
       | Reply r =>
           forall w0,
             fst (handleErrorResponse this r (maxRetries (retryConfig this)) w0)
             = inl err
       end.
Proof.
  revert attempt last w. induction n as [|n IH]; intros attempt last w Hn Hfail.
  - destruct (failed_attempt E this url 0 attempt last w)
      as (err & w2 & Heq & Herr & Hp & Hf & _ & Hd).
    { specialize (Hfail (fetched w) ltac:(lia)). unfold ok_reply in Hfail.
      by destruct (net E (fetched w)). }
    exists err, w2. rewrite Heq. split; [reflexivity|].
    replace (attempt <? maxRetries (retryConfig this))%nat with false in Hd
      by (symmetry; apply Nat.ltb_ge; lia).
    replace (fetched w + 0)%nat with (fetched w) by lia.
    replace attempt with (maxRetries (retryConfig this)) in Herr by lia.
    split; [lia|]. split; [lia|]. split; [exact Hp|exact Herr].
  - destruct (failed_attempt E this url (S n) attempt last w)
      as (err & w2 & Heq & _ & Hp & Hf & _ & Hd).
    { specialize (Hfail (fetched w) ltac:(lia)). unfold ok_reply in Hfail.
      by destruct (net E (fetched w)). }
    replace (attempt <? maxRetries (retryConfig this))%nat with true in Hd
      by (symmetry; apply Nat.ltb_lt; lia).
    destruct (IH (S attempt) (Some err) w2) as (err' & w' & Hrun & Hf' & Hd' & Hp' & Hlast).
    + lia.
    + intros i Hi. apply Hfail. lia.
    + exists err', w'. rewrite Heq, Hrun. split; [reflexivity|].
      replace (fetched w + S n)%nat with (fetched w2 + n)%nat by lia.
      split; [lia|]. split; [lia|].
      split; [eapply preserves_trans; eauto|exact Hlast].
Qed.

(** When every attempt of a call fails (a non-2xx reply or a transport
    failure, whatever the status), [request] makes [maxRetries + 1] attempts
    and [maxRetries] backoffs, appends nothing to the pruned window, and
    rejects with the error of its last attempt: the transport error, or the
    error [handleErrorResponse] throws for the last reply on the final
    attempt. *)
Theorem request_exhausts_retries E this endpoint w :
  (forall i,
     (fetched w <= i < fetched w + S (maxRetries (retryConfig this)))%nat ->
     ok_reply E i = false) ->
  exists err w',
    request E this endpoint w = (inl err, w')
    /\ fetched w' = (fetched w + S (maxRetries (retryConfig this)))%nat
    /\ drawn w' = (drawn w + maxRetries (retryConfig this))%nat
    /\ requestTimes w'
       = filter (fun time => clock w - time < rateLimitWindow) (requestTimes w)
    /\ match net E (fetched w + maxRetries (retryConfig this)) with
       | NetworkFailure m => err = Error m
       | Reply r =>
           forall w0,
             fst (handleErrorResponse this r (maxRetries (retryConfig this)) w0)
             = inl err
       end.
Proof.
  intros Hfail. unfold request, bind.
  destruct (checkRateLimit_spec w) as (w1 & tr & Hc & Hrt & Hf & Hd & _).
  rewrite Hc.
  destruct (request_loop_all_fail E this (baseUrl this +:+ endpoint)
              (maxRetries (retryConfig this)) 0 None w1)
    as (err & w' & Hrun & Hf' & Hd' & [Hrt' _] & Hlast).
  - lia.
  - rewrite Hf. exact Hfail.
  - exists err, w'. rewrite Hf in *. rewrite Hrun, Hf', Hd', Hd, Hrt', Hrt. done.
Qed.

Lemma request_exhausts_retries_witness :
  exists err w',
    request (scripted [text_reply 500 "boom"; NetworkFailure "ECONNRESET";
                       text_reply 404 "gone"]
                      (text_reply 503 "busy"))
            meshy "/rigging/t1" fresh
    = (inl err, w')
    /\ fetched w' = 4%nat
    /\ drawn w' = 3%nat
    /\ requestTimes w' = []
    /\ forall w0, fst (handleErrorResponse meshy busy 3 w0) = inl err.
Proof.
  apply (request_exhausts_retries
           (scripted [text_reply 500 "boom"; NetworkFailure "ECONNRESET";
                      text_reply 404 "gone"]
                     (text_reply 503 "busy"))
           meshy "/rigging/t1" fresh).
  intros [|[|[|[|i]]]] Hi; first [reflexivity | simpl in Hi; lia].
Defined.

Lemma request_loop_recovers E this url k n attempt last w r o :
  (attempt + k <= maxRetries (retryConfig this))%nat ->
  (forall i, (i < k)%nat -> ok_reply E (fetched w + i) = false) ->
  net E (fetched w + k) = Reply r -> ok r = true -> json r = Some o ->
  exists w',
    request_loop E this url (k + S n) attempt last w = (inr o, w')
    /\ fetched w' = (fetched w + S k)%nat
    /\ drawn w' = (drawn w + k)%nat
    /\ requestTimes w' = requestTimes w ++ [clock w']
    /\ pushes (trace w') = S (pushes (trace w)).
Proof.
  revert attempt last w. induction k as [|k IH];
    intros attempt last w Hle Hfail Hnet Hok Hjson.
  - rewrite Nat.add_0_r in Hnet. cbn [Nat.add].
    erewrite successful_attempt by eauto. eexists. split; [reflexivity|].
    cbn [clock requestTimes fetched drawn trace].
    unfold pushes. rewrite count_app. unfold count. simpl.
    repeat split; lia.
  - destruct (failed_attempt E this url (k + S n) attempt last w)
      as (err & w2 & Heq & _ & Hp & Hf & _ & Hd).
    { specialize (Hfail 0%nat ltac:(lia)). rewrite Nat.add_0_r in Hfail.
      unfold ok_reply in Hfail. by destruct (net E (fetched w)). }
    replace (attempt <? maxRetries (retryConfig this))%nat with true in Hd
      by (symmetry; apply Nat.ltb_lt; lia).
    destruct (IH (S attempt) (Some err) w2) as (w' & Hrun & Hf' & Hd' & Hrt & Hpush).
    + lia.
    + intros i Hi. rewrite Hf. replace (S (fetched w) + i)%nat
        with (fetched w + S i)%nat by lia. apply Hfail. lia.
    + rewrite Hf. rewrite <- Hnet. f_equal. lia.
    + exact Hok.
    + exact Hjson.
    + exists w'. cbn [Nat.add]. rewrite Heq, Hrun. split; [reflexivity|].
      destruct (preserves_counts _ _ Hp) as [_ Hq]. destruct Hp as [Hr _].
      rewrite Hf', Hd', Hrt, Hpush, Hf, Hd, Hr, Hq. repeat split; lia.
Qed.

(** When the first [k <= maxRetries] attempts of a call fail, in whatever
    way, and the next reply is a 2xx with a JSON body, [request] resolves
    with that body after [k + 1] attempts and [k] backoffs, and the window is
    the pruned one plus the time of the success. *)
Theorem request_recovers_after_failures E this endpoint w k r o :
  (k <= maxRetries (retryConfig this))%nat ->
  (forall i, (i < k)%nat -> ok_reply E (fetched w + i) = false) ->
  net E (fetched w + k) = Reply r -> ok r = true -> json r = Some o ->
  exists w',
    request E this endpoint w = (inr o, w')
    /\ fetched w' = (fetched w + S k)%nat
    /\ drawn w' = (drawn w + k)%nat
    /\ requestTimes w'
       = filter (fun time => clock w - time < rateLimitWindow) (requestTimes w)
         ++ [clock w'].
Proof.
  intros Hk Hfail Hnet Hok Hjson. unfold request, bind.
  destruct (checkRateLimit_spec w) as (w1 & tr & Hc & Hrt & Hf & Hd & _).
  rewrite Hc. rewrite <- Hf in Hfail, Hnet.
  destruct (request_loop_recovers E this (baseUrl this +:+ endpoint) k
              (maxRetries (retryConfig this) - k) 0 None w1 r o)
    as (w' & Hrun & Hf' & Hd' & Hrt' & _); try done.
  replace (k + S (maxRetries (retryConfig this) - k))%nat
    with (S (maxRetries (retryConfig this))) in Hrun by lia.
  exists w'. rewrite Hrun, Hf', Hd', Hrt', Hf, Hd, Hrt. done.
Qed.

Lemma request_recovers_after_failures_witness :
  exists w',
    request (scripted [NetworkFailure "ECONNRESET"; text_reply 500 "boom";
                       text_reply 404 "not yet"]
                      (object_reply 200 [("id", "t1")]))
            meshy "/rigging/t1" fresh
    = (inr (list_to_map [("id", "t1")]), w')
    /\ fetched w' = 4%nat
    /\ drawn w' = 3%nat
    /\ requestTimes w' = [clock w'].
Proof.
  apply (request_recovers_after_failures
           (scripted [NetworkFailure "ECONNRESET"; text_reply 500 "boom";
                      text_reply 404 "not yet"]
                     (object_reply 200 [("id", "t1")]))
           meshy "/rigging/t1" fresh 3
           {| status := 200; text := "{" +:+ members [("id", "t1")] +:+ "}";
              json := Some (list_to_map [("id", "t1")]) |}
           (list_to_map [("id", "t1")])).
  - simpl. lia.
  - intros [|[|[|i]]] Hi; first [reflexivity | lia].
  - reflexivity.
  - reflexivity.
  - reflexivity.
Defined.

(** ** Admission *)

(** [checkRateLimit] always resolves and leaves in the window exactly the
    entries newer than one second. With fewer than twenty of them it does
    not sleep. With twenty or more it sleeps until the oldest one has left
    the window, and never more than 1100 ms when no entry lies in the
    future. *)
Theorem checkRateLimit_delay w :
  (forall time, time ∈ requestTimes w -> time <= clock w) ->
  exists w',
    checkRateLimit w = (inr tt, w')
    /\ requestTimes w'
       = filter (fun time => clock w - time < rateLimitWindow) (requestTimes w)
    /\ clock w <= clock w' <= clock w + 1100
    /\ ((length (requestTimes w') < RATE_LIMITS_pro_requestsPerSecond)%nat ->
        clock w' = clock w /\ sleep_log (trace w') = sleep_log (trace w))
    /\ ((RATE_LIMITS_pro_requestsPerSecond <= length (requestTimes w'))%nat ->
        (in_window (clock w') (requestTimes w') < length (requestTimes w'))%nat).
Proof.
  intros Hpast. unfold checkRateLimit.
  set (kept := filter (fun time => clock w - time < rateLimitWindow) (requestTimes w)).
  unfold bind at 1, emit at 1. unfold bind at 1, Date_now at 1. unfold bind at 1.
  unfold bind at 1, set_requestTimes at 1. cbn [clock requestTimes fetched drawn trace].
  fold kept.
  destruct (RATE_LIMITS_pro_requestsPerSecond <=? length kept)%nat eqn:Hfull.
  - destruct kept as [|oldest rest] eqn:Hkept; [discriminate|]. cbn [lookup list_lookup].
    assert (Hin : clock w - oldest < rateLimitWindow /\ oldest <= clock w).
    { assert (Hel : oldest ∈ kept) by (rewrite Hkept; left).
      unfold kept in Hel. apply list_elem_of_filter in Hel as [? ?]. auto. }
    unfold rateLimitWindow in *. case_decide; [|lia].
    eexists. split; [reflexivity|]. cbn [clock requestTimes fetched drawn trace].
    split; [reflexivity|]. split; [lia|]. split.
    + intros Hlt. apply Nat.leb_le in Hfull. lia.
    + intros _. rewrite in_window_expired by (unfold rateLimitWindow; lia).
      pose proof (in_window_le_length (clock w + Z.max 0 (1000 - (clock w - oldest) + 100)) rest).
      simpl. lia.
  - eexists. split; [reflexivity|]. cbn [clock requestTimes fetched drawn trace].
    split; [reflexivity|]. split; [lia|]. split.
    + intros _. split; [reflexivity|]. unfold sleep_log. by rewrite omap_app, app_nil_r.
    + intros Hge. apply Nat.leb_gt in Hfull. lia.
Qed.

Lemma checkRateLimit_delay_witness :
  exists w',
    checkRateLimit {| clock := 1000; requestTimes := replicate 20 100;
                      fetched := 0; drawn := 0; trace := [] |}
    = (inr tt, w')
    /\ requestTimes w' = replicate 20 100
    /\ 1000 <= clock w' <= 2100
    /\ ((length (requestTimes w') < 20)%nat ->
        clock w' = 1000 /\ sleep_log (trace w') = [])
    /\ ((20 <= length (requestTimes w'))%nat ->
        (in_window (clock w') (requestTimes w') < length (requestTimes w'))%nat).
Proof.
  apply (checkRateLimit_delay
           {| clock := 1000; requestTimes := replicate 20 100;
              fetched := 0; drawn := 0; trace := [] |}).
  intros time Hin. apply elem_of_replicate in Hin as [-> _]. simpl. lia.
Defined.

(** ** Text-to-3D: status fetches and polling *)

Lemma leading_404_le E from limit : (leading_404 E from limit <= limit)%nat.
Proof.
  revert from. induction limit as [|limit IH]; intros from; [done|].
  cbn [leading_404]. destruct (net E from) as [m|r]; [lia|].
  case_bool_decide; [|lia]. specialize (IH (S from)). lia.
Qed.

Lemma leading_404_replies E from limit i :
  (i < leading_404 E from limit)%nat ->
  exists r, net E (from + i) = Reply r /\ status r = 404.
Proof.
  revert from i. induction limit as [|limit IH]; intros from i; [cbn; lia|].
  cbn [leading_404]. destruct (net E from) as [m|r] eqn:Hnet; [lia|].
  case_bool_decide as Hs; [|lia]. intros Hi.
  destruct i as [|i].
  - exists r. by rewrite Nat.add_0_r.
  - destruct (IH (S from) i) as (r' & Hr' & Hs'); [lia|].
    exists r'. split; [|done]. rewrite <- Hr'. f_equal. lia.
Qed.

Lemma leading_404_stops E from limit r :
  (leading_404 E from limit < limit)%nat ->
  net E (from + leading_404 E from limit) = Reply r -> status r <> 404.
Proof.
  revert from. induction limit as [|limit IH]; intros from; [lia|].
  cbn [leading_404]. destruct (net E from) as [m|r0] eqn:Hnet.
  - rewrite Nat.add_0_r, Hnet. discriminate.
  - case_bool_decide as Hs.
    + intros Hlt Hr. apply (IH (S from)); [lia|]. rewrite <- Hr. f_equal. lia.
    + rewrite Nat.add_0_r, Hnet. intros _ [= <-]. done.
Qed.

Lemma fetch_world E url w :
  snd (fetch E url w)
  = {| clock := clock w + Z.of_nat (latency E (fetched w));
       requestTimes := requestTimes w;
       fetched := S (fetched w); drawn := drawn w;
       trace := trace w ++ [EFetch url] |}.
Proof. unfold fetch. by destruct (net E (fetched w)). Qed.

(** [getTask] and its loop never touch the rate window and never check
    admission. *)
Lemma getTask_loop_preserves E this taskId limit remaining attempt w :
  preserves w (snd (getTask_loop E this taskId limit remaining attempt w)).
Proof.
  revert attempt w. induction remaining as [|remaining IH]; intros attempt w.
  - apply preserves_refl.
  - cbn [getTask_loop]. unfold bind at 1, fetch at 1.
    assert (Hfetch : forall w0 url, preserves w0 (logged [EFetch url] w0))
      by (intros; by apply preserves_logged).
    destruct (net E (fetched w)) as [m|r].
    + cbn [snd]. split; [done|]. by exists [EFetch (baseUrl this +:+ "/text-to-3d/" +:+ taskId)].
    + destruct (ok r).
      * unfold response_json. destruct (json r); cbn [snd];
          (split; [done|]; by exists [EFetch (baseUrl this +:+ "/text-to-3d/" +:+ taskId)]).
      * destruct (_ && _).
        -- unfold bind at 1. rewrite sleep_resolves.
           eapply preserves_trans; [|apply IH].
           split; [done|]. eexists [_; _]. cbn. rewrite <- app_assoc. done.
        -- cbn [snd]. split; [done|]. by exists [EFetch (baseUrl this +:+ "/text-to-3d/" +:+ taskId)].
Qed.

Lemma getTask_loop_decides E this taskId limit remaining attempt w :
  (forall r, net E (fetched w) = Reply r -> status r = 404 ->
             ~ (attempt < limit)%nat) ->
  getTask_loop E this taskId limit (S remaining) attempt w
  = (match net E (fetched w) with
     | NetworkFailure m => inl (Error m)
     | Reply r =>
         if ok r
         then match json r with
              | Some o => inr o
              | None => inl (Error "SyntaxError: invalid json response body")
              end
         else inl (Error ("Failed to get task: " +:+ pretty (status r)
                          +:+ " - " +:+ text r))
     end,
     snd (fetch E (baseUrl this +:+ "/text-to-3d/" +:+ taskId) w)).
Proof.
  intros Hstop. cbn [getTask_loop]. unfold bind, fetch.
  destruct (net E (fetched w)) as [m|r] eqn:Hnet; [reflexivity|].
  destruct (ok r); [unfold response_json; by destruct (json r)|].
  assert (bool_decide (status r = 404) && (attempt <? limit)%nat = false) as ->;
    [|reflexivity].
  apply andb_false_iff. destruct (Nat.ltb_spec attempt limit); [|by right].
  left. apply bool_decide_eq_false. intros Hs. by apply (Hstop r).
Qed.

(** A status fetch, completely: [getTask] absorbs the 404 replies in a row,
    at most three (none when [retryOn404] is off), sleeping 2000, 4000 and
    6000 ms, and its outcome is decided by the reply after them: the task
    of a 2xx reply, [Failed to get task: <status> - <body>] for any other,
    the transport error if there is none. It makes at most four fetches,
    leaves the rate window alone, and never ends with
    [Task not found after 4 attempts]. *)
Theorem getTask_outcome E this taskId (retryOn404 : bool) w :
  let limit := if retryOn404 then 3%nat else 0%nat in
  let k := leading_404 E (fetched w) limit in
  let w' := snd (getTask E this taskId retryOn404 w) in
  (k <= limit)%nat
  /\ fetched w' = (fetched w + S k)%nat
  /\ sleep_log (trace w')
     = sleep_log (trace w) ++ map (fun i => 2000 * (Z.of_nat i + 1)) (seq 0 k)
  /\ requestTimes w' = requestTimes w
  /\ admits (trace w') = admits (trace w)
  /\ fst (getTask E this taskId retryOn404 w)
     = match net E (fetched w + k) with
       | NetworkFailure m => inl (Error m)
       | Reply r =>
           if ok r then fst (response_json r w')
           else inl (Error ("Failed to get task: " +:+ pretty (status r)
                            +:+ " - " +:+ text r))
       end.
Proof.
  cbv zeta. set (limit := if retryOn404 then 3%nat else 0%nat).
  set (k := leading_404 E (fetched w) limit).
  pose proof (leading_404_le E (fetched w) limit) as Hk. fold k in Hk.
  split; [exact Hk|].
  pose proof (getTask_loop_preserves E this taskId limit (S limit) 0 w) as Hp.
  destruct (preserves_counts _ _ Hp) as [Hadm _]. destruct Hp as [Hrt _].
  destruct (getTask_loop_absorbs E this taskId limit (S (limit - k)) k 0 w)
    as (w1 & Heq & Hf & Hl).
  { intros i Hi. by apply (leading_404_replies E (fetched w) limit). }
  { lia. }
  replace (k + S (limit - k))%nat with (S limit) in Heq by lia.
  cbn [Nat.add] in Heq.
  rewrite (getTask_loop_decides E this taskId limit (limit - k) k w1) in Heq.
  2:{ intros r Hr Hs Hlt. rewrite Hf in Hr.
      by apply (leading_404_stops E (fetched w) limit r). }
  unfold getTask. fold limit. rewrite Heq in *. clear Heq.
  rewrite fetch_world in *. cbn [fst snd fetched trace requestTimes] in *.
  split; [lia|].
  split; [rewrite sleep_log_app, Hl; cbn; by rewrite app_nil_r|].
  split; [exact Hrt|]. split; [exact Hadm|].
  rewrite Hf. destruct (net E (fetched w + k)) as [m|r]; [reflexivity|].
  destruct (ok r); [|reflexivity]. unfold response_json. by destruct (json r).
Qed.

(** ** Polling: what a poll spends and what it resolves with *)

Lemma bind_run {A B} (m : M A) (k : A -> M B) w :
  bind m k w
  = match m w with
    | (inr a, w') => k a w'
    | (inl e, w') => (inl e, w')
    end.
Proof. reflexivity. Qed.

Lemma fetch_log_app a b : fetch_log (a ++ b) = fetch_log a ++ fetch_log b.
Proof. apply omap_app. Qed.

Lemma getTask_loop_ledger E this taskId limit remaining attempt w :
  let w' := snd (getTask_loop E this taskId limit remaining attempt w) in
  exists n,
    (n <= remaining)%nat
    /\ fetched w' = (fetched w + n)%nat
    /\ fetch_log (trace w')
       = fetch_log (trace w)
         ++ replicate n (baseUrl this +:+ "/text-to-3d/" +:+ taskId).
Proof.
  cbv zeta. revert attempt w.
  induction remaining as [|remaining IH]; intros attempt w.
  - exists 0%nat. cbn. rewrite app_nil_r. repeat split; lia.
  - cbn [getTask_loop]. rewrite bind_run.
    pose proof (fetch_world E (baseUrl this +:+ "/text-to-3d/" +:+ taskId) w) as Hw.
    destruct (fetch E (baseUrl this +:+ "/text-to-3d/" +:+ taskId) w)
      as [res w1]; cbn [snd] in Hw. cbn [snd].
    assert (Hone : exists n, (n <= S remaining)%nat
      /\ fetched w1 = (fetched w + n)%nat
      /\ fetch_log (trace w1)
         = fetch_log (trace w)
           ++ replicate n (baseUrl this +:+ "/text-to-3d/" +:+ taskId)).
    { exists 1%nat. rewrite Hw. cbn [fetched trace].
      rewrite fetch_log_app. cbn. repeat split; lia. }
    destruct res as [err|r]; [exact Hone|].
    destruct (ok r).
    + unfold response_json. destruct (json r); exact Hone.
    + destruct (_ && _); [|exact Hone].
      rewrite bind_run, sleep_resolves.
      match goal with |- context [getTask_loop _ _ _ _ _ _ ?w0] =>
        destruct (IH (S attempt) w0) as (n & Hn & Hf & Hl) end.
      exists (S n). rewrite Hf, Hl, Hw.
      cbn [fetched trace sleep bind emit advance snd].
      rewrite !fetch_log_app. cbn.
      split; [lia|]. split; [lia|]. rewrite <- ?app_assoc. reflexivity.
Qed.

Lemma pollTask_ledger E this taskId maxRetries intervalMs w :
  let w' := snd (pollTask E this taskId maxRetries intervalMs w) in
  preserves w w'
  /\ resolves_succeeded (fst (pollTask E this taskId maxRetries intervalMs w))
  /\ exists n,
       (n <= 4 * maxRetries)%nat
       /\ fetched w' = (fetched w + n)%nat
       /\ fetch_log (trace w')
          = fetch_log (trace w)
            ++ replicate n (baseUrl this +:+ "/text-to-3d/" +:+ taskId).
Proof.
  cbv zeta. revert w. induction maxRetries as [|maxRetries IH]; intros w.
  - cbn. split; [apply preserves_refl|]. split; [done|].
    exists 0%nat. cbn. rewrite app_nil_r. repeat split; lia.
  - cbn [pollTask]. rewrite bind_run.
    pose proof (getTask_loop_preserves E this taskId 3 4 0 w) as Hp.
    destruct (getTask_loop_ledger E this taskId 3 4 0 w) as (n & Hn & Hf & Hl).
    unfold getTask.
    destruct (getTask_loop E this taskId 3 4 0 w) as [[err|task] w1];
      cbn [fst snd] in *.
    + split; [exact Hp|]. split; [done|]. exists n. repeat split; try done; lia.
    + case_decide as Hs.
      { split; [exact Hp|]. split; [exact Hs|].
        exists n. repeat split; try done; lia. }
      case_decide.
      { split; [exact Hp|]. split; [done|].
        exists n. repeat split; try done; lia. }
      rewrite bind_run, sleep_resolves.
      match goal with |- context [pollTask _ _ _ _ _ ?w0] =>
        destruct (IH w0) as (Hp' & Hres & n' & Hn' & Hf' & Hl') end.
      split.
      { eapply preserves_trans; [|exact Hp'].
        eapply preserves_trans; [exact Hp|].
        split; [done|]. by exists [ESleep intervalMs]. }
      split; [exact Hres|].
      exists (n + n')%nat. rewrite Hf', Hl'.
      cbn [fetched trace sleep bind emit advance snd].
      rewrite fetch_log_app, Hl, Hf. cbn. rewrite app_nil_r, <- app_assoc.
      rewrite replicate_add. repeat split; lia.
Qed.

(** [pollTask] fetches the status outside the request executor: a poll
    never checks the rate limit and leaves the client's rate window as it
    was, whatever the replies; it makes at most four fetches for each of
    its [maxRetries] ticks, all of them of the task's URL; and it resolves
    with nothing but a task whose status is [SUCCEEDED]. *)
Theorem pollTask_budget E this taskId maxRetries intervalMs w :
  let w' := snd (pollTask E this taskId maxRetries intervalMs w) in
  requestTimes w' = requestTimes w
  /\ admits (trace w') = admits (trace w)
  /\ pushes (trace w') = pushes (trace w)
  /\ resolves_succeeded (fst (pollTask E this taskId maxRetries intervalMs w))
  /\ exists n,
       (n <= 4 * maxRetries)%nat
       /\ fetched w' = (fetched w + n)%nat
       /\ fetch_log (trace w')
          = fetch_log (trace w)
            ++ replicate n (baseUrl this +:+ "/text-to-3d/" +:+ taskId).
Proof.
  cbv zeta.
  destruct (pollTask_ledger E this taskId maxRetries intervalMs w)
    as (Hp & Hres & Hn).
  destruct (preserves_counts _ _ Hp) as [Hadm Hpush]. destruct Hp as [Hrt _].
  done.
Qed.

(** [pollTask] resolves with the first task it observes as [SUCCEEDED]:
    after [k < maxRetries] ticks that observed a status that is not
    terminal, each followed by a sleep of the interval, the task of the
    next status fetch is returned as it was fetched, without a further
    sleep. *)
Theorem pollTask_returns_first_success E this taskId intervalMs maxRetries k w w1 task w2 :
  (k < maxRetries)%nat ->
  waits (getTask E this taskId true) terminal_text_to_3d intervalMs k w w1 ->
  getTask E this taskId true w1 = (inr task, w2) ->
  task !! "status" = Some "SUCCEEDED" ->
  pollTask E this taskId maxRetries intervalMs w = (inr task, w2).
Proof.
  intros Hk Hw Hfetch Hs.
  replace maxRetries with (k + S (maxRetries - S k))%nat by lia.
  rewrite (pollTask_waits _ _ _ _ _ _ _ _ Hw).
  cbn [pollTask]. unfold bind at 1. rewrite Hfetch.
  by rewrite decide_True.
Qed.

Lemma pollTask_returns_first_success_witness :
  exists w',
    pollTask pending_then_succeeded meshy "t1" 60 10000 fresh
    = (inr (list_to_map [("id", "t1"); ("status", "SUCCEEDED")]), w')
    /\ sleep_log (trace w') = [10000].
Proof.
  eexists. split.
  - eapply (pollTask_returns_first_success pending_then_succeeded meshy "t1"
              10000 60 1 fresh).
    + lia.
    + eapply waits_tick; [reflexivity| |apply waits_done].
      intros [H|[H|H]]; vm_compute in H; discriminate H.
    + reflexivity.
    + reflexivity.
  - reflexivity.
Defined.

(** *** Polls through the request executor *)

Lemma request_spends E this endpoint w :
  spent this 1 w (snd (request E this endpoint w)).
Proof.
  unfold spent, request, bind.
  destruct (checkRateLimit_spec w)
    as (w1 & tr & Hc & _ & Hf & _ & Ht & Hadm & _).
  rewrite Hc.
  destruct (request_loop_ledger E this (baseUrl this +:+ endpoint)
              (S (maxRetries (retryConfig this))) 0 None w1)
    as (sent & Hf' & Hle & Hge & _ & Hadm' & _).
  rewrite Hf', Hadm', Hf, Ht. unfold admits in *. rewrite count_app.
  unfold count in *. simpl. repeat split; lia.
Qed.

Lemma spent_none this w : spent this 0 w w.
Proof. unfold spent. repeat split; lia. Qed.

Lemma spent_sleep this ticks ms w w' :
  spent this ticks w w' -> spent this ticks w (snd (sleep ms w')).
Proof.
  unfold spent. cbn [fetched trace sleep bind emit advance snd].
  intros (Ha & Hlo & Hhi). unfold admits in *. rewrite count_app.
  unfold count in *. simpl. repeat split; lia.
Qed.

Lemma spent_trans this a b w1 w2 w3 :
  spent this a w1 w2 -> spent this b w2 w3 -> spent this (a + b) w1 w3.
Proof. unfold spent. intros (?&?&?) (?&?&?). repeat split; nia. Qed.

Section PollBudget.

Variable this : MeshyBaseClient.
Variable fetchTask : M JsObject.
Variable poll : nat -> M JsObject.
Variable intervalMs : Z.

Hypothesis fetch_spends : forall w, spent this 1 w (snd (fetchTask w)).
Hypothesis poll_O : forall w, exists e, poll 0 w = (inl e, w).
Hypothesis poll_S : forall n w,
  (exists e, poll (S n) w = (inl e, snd (fetchTask w)))
  \/ (exists task, task !! "status" = Some "SUCCEEDED"
                   /\ poll (S n) w = (inr task, snd (fetchTask w)))
  \/ poll (S n) w = poll n (snd (sleep intervalMs (snd (fetchTask w)))).

Lemma poll_within_budget n w :
  exists ticks, (ticks <= n)%nat
    /\ spent this ticks w (snd (poll n w))
    /\ resolves_succeeded (fst (poll n w)).
Proof.
  revert w. induction n as [|n IH]; intros w.
  - destruct (poll_O w) as [e ->]. exists 0%nat.
    split; [lia|]. split; [apply spent_none|done].
  - destruct (poll_S n w) as [[e ->]|[(task & Hs & ->)| ->]].
    + exists 1%nat. split; [lia|]. split; [apply fetch_spends|done].
    + exists 1%nat. split; [lia|]. split; [apply fetch_spends|exact Hs].
    + destruct (IH (snd (sleep intervalMs (snd (fetchTask w)))))
        as (ticks & Hle & Hsp & Hres).
      exists (S ticks). split; [lia|]. split; [|exact Hres].
      apply (spent_trans _ 1 ticks _ (snd (sleep intervalMs (snd (fetchTask w)))));
        [|exact Hsp].
      apply spent_sleep, fetch_spends.
Qed.

End PollBudget.

Ltac poll_cases :=
  intros ? ?; rewrite bind_run;
  match goal with |- context [request ?E ?this ?ep ?w] =>
    destruct (request E this ep w) as [[?|?] ?] end;
  cbn [snd];
  [ left; eauto
  | case_decide;
    [ right; left; eauto
    | case_decide;
      [ left; eauto
      | right; right; by rewrite bind_run, sleep_resolves ] ] ].

(** The animation, retexture and rigging pollers fetch the status through
    the request executor: every tick of a poll, and there are at most
    [maxRetries] of them, passes the rate limiter once and makes between
    one and [retryConfig.maxRetries + 1] network attempts. Each of the
    three resolves with nothing but a task whose status is [SUCCEEDED]. *)
Theorem request_pollers_budget E this taskId maxRetries intervalMs :
  (forall w,
     let run := pollAnimationTask E this taskId maxRetries intervalMs w in
     exists ticks, (ticks <= maxRetries)%nat
       /\ spent this ticks w (snd run) /\ resolves_succeeded (fst run))
  /\ (forall w,
        let run := RetextureTasks.pollRetextureTask E this taskId maxRetries
                     intervalMs w in
        exists ticks, (ticks <= maxRetries)%nat
          /\ spent this ticks w (snd run) /\ resolves_succeeded (fst run))
  /\ (forall w,
        let run := Rigging.pollRiggingTask E this taskId maxRetries
                     intervalMs w in
        exists ticks, (ticks <= maxRetries)%nat
          /\ spent this ticks w (snd run) /\ resolves_succeeded (fst run)).
Proof.
  split; [|split]; intros w; cbv zeta.
  - apply (poll_within_budget this (getAnimationTask E this taskId)
             (fun n => pollAnimationTask E this taskId n intervalMs) intervalMs).
    + intros w0. apply request_spends.
    + intros w0. by eexists.
    + cbn [pollAnimationTask]. unfold getAnimationTask. poll_cases.
  - apply (poll_within_budget this (RetextureTasks.getRetextureTask E this taskId)
             (fun n => RetextureTasks.pollRetextureTask E this taskId n intervalMs)
             intervalMs).
    + intros w0. apply request_spends.
    + intros w0. by eexists.
    + cbn [RetextureTasks.pollRetextureTask].
      unfold RetextureTasks.getRetextureTask. poll_cases.
  - apply (poll_within_budget this (Rigging.getRiggingTask E this taskId)
             (fun n => Rigging.pollRiggingTask E this taskId n intervalMs)
             intervalMs).
    + intros w0. apply request_spends.
    + intros w0. by eexists.
    + cbn [Rigging.pollRiggingTask]. unfold Rigging.getRiggingTask. poll_cases.
Qed.

(** *** What the polls through the request executor end with *)

Lemma pollRetextureTask_waits E this taskId intervalMs k n w w1 :
  waits (RetextureTasks.getRetextureTask E this taskId) terminal_retexture
        intervalMs k w w1 ->
  RetextureTasks.pollRetextureTask E this taskId (k + n) intervalMs w
  = RetextureTasks.pollRetextureTask E this taskId n intervalMs w1.
Proof.
  induction 1 as [w|k w task w1 w2 Hfetch Hnon _ IH]; [done|].
  cbn [Nat.add RetextureTasks.pollRetextureTask]. unfold bind at 1.
  rewrite Hfetch. unfold terminal_retexture in Hnon.
  repeat case_decide; try tauto; exact IH.
Qed.

Lemma pollRiggingTask_waits E this taskId intervalMs k n w w1 :
  waits (Rigging.getRiggingTask E this taskId) terminal_rigging
        intervalMs k w w1 ->
  Rigging.pollRiggingTask E this taskId (k + n) intervalMs w
  = Rigging.pollRiggingTask E this taskId n intervalMs w1.
Proof.
  induction 1 as [w|k w task w1 w2 Hfetch Hnon _ IH]; [done|].
  cbn [Nat.add Rigging.pollRiggingTask]. unfold bind at 1.
  rewrite Hfetch. unfold terminal_rigging in Hnon.
  repeat case_decide; try tauto; exact IH.
Qed.

(** [pollRetextureTask], after [k] ticks that observed a status that is not
    terminal: if these were all its [maxRetries] ticks it fails with
    [Retexture task <id> timed out]; else the next status fetch decides: a
    task that is [SUCCEEDED] is returned as fetched, a task that is
    [FAILED] or [EXPIRED] fails the poll with
    [Retexture task <id> failed: <status>], and an error of the status
    fetch (one that [request] gave up on) fails the poll with that
    error. *)
Theorem pollRetextureTask_outcomes E this taskId intervalMs maxRetries k w w1 :
  waits (RetextureTasks.getRetextureTask E this taskId) terminal_retexture
        intervalMs k w w1 ->
  let poll := RetextureTasks.pollRetextureTask E this taskId maxRetries
                intervalMs w in
  (k = maxRetries ->
   poll = (inl (Error ("Retexture task " +:+ taskId +:+ " timed out")), w1))
  /\ ((k < maxRetries)%nat ->
      forall w2,
        (forall err,
           RetextureTasks.getRetextureTask E this taskId w1 = (inl err, w2) ->
           poll = (inl err, w2))
        /\ (forall task,
              RetextureTasks.getRetextureTask E this taskId w1 = (inr task, w2) ->
              (task !! "status" = Some "SUCCEEDED" -> poll = (inr task, w2))
              /\ (forall status,
                    task !! "status" = Some status ->
                    status = "FAILED" \/ status = "EXPIRED" ->
                    poll = (inl (Error ("Retexture task " +:+ taskId
                                        +:+ " failed: " +:+ status)), w2)))).
Proof.
  intros Hw. cbv zeta. split.
  - intros <-. pose proof (pollRetextureTask_waits _ _ _ _ _ 0%nat _ _ Hw) as Hrun.
    rewrite Nat.add_0_r in Hrun. by rewrite Hrun.
  - intros Hk w2.
    replace maxRetries with (k + S (maxRetries - S k))%nat by lia.
    rewrite (pollRetextureTask_waits _ _ _ _ _ _ _ _ Hw).
    cbn [RetextureTasks.pollRetextureTask]. rewrite bind_run. split.
    + intros err ->. reflexivity.
    + intros task ->. split.
      * intros Hs. by rewrite decide_True.
      * intros status Hs Hfail. rewrite Hs.
        destruct Hfail as [-> | ->]; repeat case_decide; try done; naive_solver.
Qed.

Lemma pollRetextureTask_outcomes_witness :
  let poll := RetextureTasks.pollRetextureTask pending_then_succeeded meshy_v1
                "t1" 60 10000 fresh in
  fst poll = inr (list_to_map [("id", "t1"); ("status", "SUCCEEDED")])
  /\ sleep_log (trace (snd poll)) = [10000]
  /\ admits (trace (snd poll)) = 2%nat.
Proof.
  set (fetchTask := RetextureTasks.getRetextureTask pending_then_succeeded
                      meshy_v1 "t1").
  set (w1 := snd (sleep 10000 (snd (fetchTask fresh)))).
  assert (Hw : waits fetchTask terminal_retexture 10000 1 fresh w1).
  { apply (waits_tick _ _ _ 0 fresh
             (list_to_map [("id", "t1"); ("status", "PENDING")])
             (snd (fetchTask fresh)));
      [vm_compute; reflexivity| |apply waits_done].
    intros [H|[H|H]]; vm_compute in H; discriminate H. }
  assert (Hfetch : fetchTask w1
                   = (inr (list_to_map [("id", "t1"); ("status", "SUCCEEDED")]),
                      snd (fetchTask w1)))
    by (vm_compute; reflexivity).
  cbv zeta. split; [|split; vm_compute; reflexivity].
  rewrite (proj1 (proj2 (proj2 (pollRetextureTask_outcomes _ _ _ _ 60 _ _ _ Hw)
                           ltac:(lia) _) _ Hfetch) eq_refl).
  reflexivity.
Defined.

(** [pollRiggingTask], after [k] ticks that observed a status that is not
    terminal: if these were all its [maxRetries] ticks it fails with
    [Rigging task <id> timed out]; else the next status fetch decides: a
    task that is [SUCCEEDED] is returned as fetched, a task that is
    [FAILED] or [CANCELED] fails the poll with
    [Rigging task <id> failed: <status>], and an error of the status
    fetch (one that [request] gave up on) fails the poll with that
    error. *)
Theorem pollRiggingTask_outcomes E this taskId intervalMs maxRetries k w w1 :
  waits (Rigging.getRiggingTask E this taskId) terminal_rigging
        intervalMs k w w1 ->
  let poll := Rigging.pollRiggingTask E this taskId maxRetries
                intervalMs w in
  (k = maxRetries ->
   poll = (inl (Error ("Rigging task " +:+ taskId +:+ " timed out")), w1))
  /\ ((k < maxRetries)%nat ->
      forall w2,
        (forall err,
           Rigging.getRiggingTask E this taskId w1 = (inl err, w2) ->
           poll = (inl err, w2))
        /\ (forall task,
              Rigging.getRiggingTask E this taskId w1 = (inr task, w2) ->
              (task !! "status" = Some "SUCCEEDED" -> poll = (inr task, w2))
              /\ (forall status,
                    task !! "status" = Some status ->
                    status = "FAILED" \/ status = "CANCELED" ->
                    poll = (inl (Error ("Rigging task " +:+ taskId
                                        +:+ " failed: " +:+ status)), w2)))).
Proof.
  intros Hw. cbv zeta. split.
  - intros <-. pose proof (pollRiggingTask_waits _ _ _ _ _ 0%nat _ _ Hw) as Hrun.
    rewrite Nat.add_0_r in Hrun. by rewrite Hrun.
  - intros Hk w2.
    replace maxRetries with (k + S (maxRetries - S k))%nat by lia.
    rewrite (pollRiggingTask_waits _ _ _ _ _ _ _ _ Hw).
    cbn [Rigging.pollRiggingTask]. rewrite bind_run. split.
    + intros err ->. reflexivity.
    + intros task ->. split.
      * intros Hs. by rewrite decide_True.
      * intros status Hs Hfail. rewrite Hs.
        destruct Hfail as [-> | ->]; repeat case_decide; try done; naive_solver.
Qed.

Lemma pollRiggingTask_outcomes_witness :
  let poll := Rigging.pollRiggingTask pending_then_canceled meshy_v1
                "t1" 60 10000 fresh in
  fst poll = inl (Error "Rigging task t1 failed: CANCELED")
  /\ sleep_log (trace (snd poll)) = [10000]
  /\ admits (trace (snd poll)) = 2%nat.
Proof.
  set (fetchTask := Rigging.getRiggingTask pending_then_canceled meshy_v1 "t1").
  set (w1 := snd (sleep 10000 (snd (fetchTask fresh)))).
  assert (Hw : waits fetchTask terminal_rigging 10000 1 fresh w1).
  { apply (waits_tick _ _ _ 0 fresh
             (list_to_map [("id", "t1"); ("status", "PENDING")])
             (snd (fetchTask fresh)));
      [vm_compute; reflexivity| |apply waits_done].
    intros [H|[H|H]]; vm_compute in H; discriminate H. }
  assert (Hfetch : fetchTask w1
                   = (inr (list_to_map [("id", "t1"); ("status", "CANCELED")]),
                      snd (fetchTask w1)))
    by (vm_compute; reflexivity).
  cbv zeta. split; [|split; vm_compute; reflexivity].
  rewrite (proj2 (proj2 (proj2 (pollRiggingTask_outcomes _ _ _ _ 60 _ _ _ Hw)
                           ltac:(lia) _) _ Hfetch) "CANCELED" eq_refl
             (or_intror eq_refl)).
  reflexivity.
Defined.

(** [pollAnimationTask], after [k] ticks that observed a status that is not
    terminal: if these were all its [maxRetries] ticks it fails with
    [Animation task <id> timed out]; else the next status fetch decides: a
    task that is [SUCCEEDED] is returned as fetched, a task that is
    [FAILED] or [CANCELED] fails the poll with
    [Animation task <id> failed: <status>], and an error of the status
    fetch (one that [request] gave up on) fails the poll with that
    error. *)
Theorem pollAnimationTask_outcomes E this taskId intervalMs maxRetries k w w1 :
  waits (getAnimationTask E this taskId) terminal_animation
        intervalMs k w w1 ->
  let poll := pollAnimationTask E this taskId maxRetries
                intervalMs w in
  (k = maxRetries ->
   poll = (inl (Error ("Animation task " +:+ taskId +:+ " timed out")), w1))
  /\ ((k < maxRetries)%nat ->
      forall w2,
        (forall err,
           getAnimationTask E this taskId w1 = (inl err, w2) ->
           poll = (inl err, w2))
        /\ (forall task,
              getAnimationTask E this taskId w1 = (inr task, w2) ->
              (task !! "status" = Some "SUCCEEDED" -> poll = (inr task, w2))
              /\ (forall status,
                    task !! "status" = Some status ->
                    status = "FAILED" \/ status = "CANCELED" ->
                    poll = (inl (Error ("Animation task " +:+ taskId
                                        +:+ " failed: " +:+ status)), w2)))).
Proof.
  intros Hw. cbv zeta. split.
  - intros <-. pose proof (pollAnimationTask_waits _ _ _ _ _ 0%nat _ _ Hw) as Hrun.
    rewrite Nat.add_0_r in Hrun. by rewrite Hrun.
  - intros Hk w2.
    replace maxRetries with (k + S (maxRetries - S k))%nat by lia.
    rewrite (pollAnimationTask_waits _ _ _ _ _ _ _ _ Hw).
    cbn [pollAnimationTask]. rewrite bind_run. split.
    + intros err ->. reflexivity.
    + intros task ->. split.
      * intros Hs. by rewrite decide_True.
      * intros status Hs Hfail. rewrite Hs.
        destruct Hfail as [-> | ->]; repeat case_decide; try done; naive_solver.
Qed.

Lemma pollAnimationTask_outcomes_witness :
  let poll := pollAnimationTask always_pending meshy_v1 "t1" 2 10000 fresh in
  fst poll = inl (Error "Animation task t1 timed out")
  /\ sleep_log (trace (snd poll)) = [10000; 10000]
  /\ admits (trace (snd poll)) = 2%nat.
Proof.
  set (fetchTask := getAnimationTask always_pending meshy_v1 "t1").
  set (w1 := snd (sleep 10000 (snd (fetchTask fresh)))).
  set (w2 := snd (sleep 10000 (snd (fetchTask w1)))).
  assert (Hw : waits fetchTask terminal_animation 10000 2 fresh w2).
  { apply (waits_tick _ _ _ 1 fresh
             (list_to_map [("id", "t1"); ("status", "PENDING")])
             (snd (fetchTask fresh)));
      [vm_compute; reflexivity| |].
    { intros [H|[H|H]]; vm_compute in H; discriminate H. }
    apply (waits_tick _ _ _ 0 w1
             (list_to_map [("id", "t1"); ("status", "PENDING")])
             (snd (fetchTask w1)));
      [vm_compute; reflexivity| |apply waits_done].
    intros [H|[H|H]]; vm_compute in H; discriminate H. }
  cbv zeta. split; [|split; vm_compute; reflexivity].
  rewrite (proj1 (pollAnimationTask_outcomes _ _ _ _ 2 _ _ _ Hw) eq_refl).
  reflexivity.
Defined.

(** ** Deleting tasks *)

Lemma request_loop_undecodable E this url n attempt last w :
  (forall i, (fetched w <= i < fetched w + n)%nat ->
             exists r, net E i = Reply r /\ ok r = true /\ json r = None) ->
  exists w',
    request_loop E this url n attempt last w
    = (inl (match n with
            | O => default (Error "Request failed after retries") last
            | S _ => Error "SyntaxError: invalid json response body"
            end), w')
    /\ fetched w' = (fetched w + n)%nat
    /\ pushes (trace w') = (pushes (trace w) + n)%nat
    /\ length (requestTimes w') = (length (requestTimes w) + n)%nat.
Proof.
  revert attempt last w. induction n as [|n IH]; intros attempt last w Hnet.
  - exists w. cbn. repeat split; lia.
  - destruct (Hnet (fetched w)) as (r & Hr & Hok & Hjson); [lia|].
    destruct (undecodable_attempt E this url n attempt last w r Hr Hok Hjson)
      as (w2 & Heq & Hf & _ & _ & Hpush & Hlen & _).
    destruct (IH (S attempt)
                 (Some (Error "SyntaxError: invalid json response body")) w2)
      as (w' & Hrun & Hf' & Hpush' & Hlen').
    { intros i Hi. apply Hnet. lia. }
    exists w'. rewrite Heq, Hrun. split; [by destruct n|].
    repeat split; lia.
Qed.

Lemma request_undecodable E this endpoint w :
  (forall i,
     (fetched w <= i < fetched w + S (maxRetries (retryConfig this)))%nat ->
     exists r, net E i = Reply r /\ ok r = true /\ json r = None) ->
  exists w',
    request E this endpoint w
    = (inl (Error "SyntaxError: invalid json response body"), w')
    /\ fetched w' = (fetched w + S (maxRetries (retryConfig this)))%nat
    /\ pushes (trace w')
       = (pushes (trace w) + S (maxRetries (retryConfig this)))%nat.
Proof.
  intros Hnet. unfold request, bind.
  destruct (checkRateLimit_spec w)
    as (w1 & tr & Hc & _ & Hf & _ & Ht & _ & _ & Hpush & _).
  rewrite Hc.
  destruct (request_loop_undecodable E this (baseUrl this +:+ endpoint)
              (S (maxRetries (retryConfig this))) 0 None w1)
    as (w' & Hrun & Hf' & Hpush' & _).
  { rewrite Hf. exact Hnet. }
  exists w'. rewrite Hrun, Hf', Hpush', Hf, Ht.
  unfold pushes in *. rewrite count_app. unfold count in *. simpl in *.
  repeat split; lia.
Qed.

(** A server that answers a DELETE with a 2xx reply whose body is not JSON
    (an empty [204 No Content], say): [deleteRiggingTask] and [deleteTask]
    look at the status only and resolve after one request;
    [deleteAnimationTask] and [deleteRetextureTask] go through [request],
    which decodes the body of every 2xx reply, takes the failure to decode
    for a failed attempt and sends the DELETE again: they reject with the
    [SyntaxError] after [maxRetries + 1] requests, each of them entered in
    the rate window. *)
Theorem delete_needs_json_reply E this taskId w :
  (forall i,
     (fetched w <= i < fetched w + S (maxRetries (retryConfig this)))%nat ->
     exists r, net E i = Reply r /\ ok r = true /\ json r = None) ->
  (forall delete,
     delete = AnimationTasks.deleteAnimationTask E this taskId
     \/ delete = RetextureTasks.deleteRetextureTask E this taskId ->
     fst (delete w) = inl (Error "SyntaxError: invalid json response body")
     /\ fetched (snd (delete w))
        = (fetched w + S (maxRetries (retryConfig this)))%nat
     /\ pushes (trace (snd (delete w)))
        = (pushes (trace w) + S (maxRetries (retryConfig this)))%nat)
  /\ (forall delete,
        delete = Rigging.deleteRiggingTask E this taskId
        \/ delete = TextTo3DTasks.deleteTask E this taskId ->
        fst (delete w) = inr tt
        /\ fetched (snd (delete w)) = S (fetched w)
        /\ pushes (trace (snd (delete w))) = pushes (trace w)).
Proof.
  intros Hnet. split.
  - intros delete [-> | ->];
      unfold AnimationTasks.deleteAnimationTask,
             RetextureTasks.deleteRetextureTask;
      rewrite bind_run;
      match goal with |- context [request E this ?ep w] =>
        destruct (request_undecodable E this ep w Hnet)
          as (w' & -> & Hf & Hpush) end;
      done.
  - destruct (Hnet (fetched w)) as (r & Hr & Hok & _); [lia|].
    intros delete [-> | ->];
      unfold Rigging.deleteRiggingTask, TextTo3DTasks.deleteTask;
      rewrite bind_run; unfold fetch; rewrite Hr, Hok;
      cbn [negb fst snd ret fetched trace];
      unfold pushes; rewrite count_app; unfold count; simpl;
      repeat split; lia.
Qed.

Lemma delete_needs_json_reply_witness :
  fst (AnimationTasks.deleteAnimationTask no_content meshy_v1 "t1" fresh)
  = inl (Error "SyntaxError: invalid json response body")
  /\ fetched (snd (AnimationTasks.deleteAnimationTask no_content meshy_v1 "t1"
                     fresh)) = 4%nat
  /\ pushes (trace (snd (AnimationTasks.deleteAnimationTask no_content
                           meshy_v1 "t1" fresh))) = 4%nat.
Proof.
  apply (proj1 (delete_needs_json_reply no_content meshy_v1 "t1" fresh
                  (fun i _ => ex_intro _ {| status := 204; text := "";
                                            json := None |}
                                (conj eq_refl (conj eq_refl eq_refl))))).
  left. reflexivity.
Defined.

(** [deleteTask] and [deleteRiggingTask] make one network attempt, whatever
    the reply: they do not pass the rate limiter, do not retry (not on
    429, not on a server error), do not sleep and do not decode the body.
    They resolve exactly on a 2xx reply; a transport failure rejects with
    its error, and another reply with a built-in [Error] that carries the
    status and the body as text ([deleteTask] names the task id in it,
    [deleteRiggingTask] does not). *)
Theorem raw_delete_single_attempt E this taskId w :
  let outcome (describe : Z -> string -> string) :=
    match net E (fetched w) with
    | NetworkFailure m => inl (Error m)
    | Reply r =>
        if ok r then inr tt else inl (Error (describe (status r) (text r)))
    end in
  TextTo3DTasks.deleteTask E this taskId w
  = (outcome (fun status error =>
                "Failed to delete task " +:+ taskId +:+ ": "
                +:+ pretty status +:+ " - " +:+ error),
     snd (fetch E (baseUrl this +:+ "/text-to-3d/" +:+ taskId) w))
  /\ Rigging.deleteRiggingTask E this taskId w
     = (outcome (fun status error =>
                   "Failed to delete rigging task: "
                   +:+ pretty status +:+ " - " +:+ error),
        snd (fetch E (baseUrl this +:+ "/rigging/" +:+ taskId) w))
  /\ forall url,
       let w' := snd (fetch E url w) in
       fetched w' = S (fetched w)
       /\ requestTimes w' = requestTimes w
       /\ drawn w' = drawn w
       /\ trace w' = trace w ++ [EFetch url].
Proof.
  cbv zeta. split; [|split].
  - unfold TextTo3DTasks.deleteTask. rewrite bind_run, fetch_world.
    unfold fetch. destruct (net E (fetched w)) as [m|r]; [reflexivity|].
    destruct (ok r); reflexivity.
  - unfold Rigging.deleteRiggingTask. rewrite bind_run, fetch_world.
    unfold fetch. destruct (net E (fetched w)) as [m|r]; [reflexivity|].
    destruct (ok r); reflexivity.
  - intros url. by rewrite fetch_world.
Qed.

(** ** Creating tasks *)

Lemma or_else_filled a b : b <> "" -> or_else a b <> "".
Proof. intros Hb. unfold or_else. destruct a as [s|]; [|done]. by case_decide. Qed.

Lemma or_number_filled n d : d <> 0 -> TextTo3DTasks.or_number n d <> 0.
Proof.
  intros Hd. unfold TextTo3DTasks.or_number. destruct n as [v|]; [|done].
  by case_decide.
Qed.

Lemma filled_or_else a b :
  b <> "" -> TextTo3DTasks.filled (TextTo3DTasks.VStr (or_else a b)) = true.
Proof.
  intros Hb. cbn. apply negb_true_iff, bool_decide_eq_false.
  by apply or_else_filled.
Qed.

(** [createPreviewTask] calls the request callback once, first thing, with
    the URL [<baseUrl>/text-to-3d] and a POST whose body always holds the
    same ten fields: [mode] is [preview], the prompt is passed as given
    (an empty one too), and no other field is ever empty, zero or
    [undefined], since defaults replace what is missing or falsy. An error
    of the callback is passed on. A reply without a task id ([result],
    else [id]) is rejected at once; otherwise the method sleeps one second
    and resolves with a [PENDING] task that carries this id and the time
    after the sleep. *)
Theorem createPreviewTask_contract this params :
  exists init,
    TextTo3DTasks.method init = "POST"
    /\ TextTo3DTasks.headers init
       = [("Authorization", "Bearer " +:+ apiKey this);
          ("Content-Type", "application/json")]
    /\ map fst (TextTo3DTasks.body init)
       = ["mode"; "prompt"; "art_style"; "ai_model"; "topology";
          "target_polycount"; "should_remesh"; "symmetry_mode";
          "is_a_t_pose"; "moderation"]
    /\ (forall k v, (k, v) ∈ TextTo3DTasks.body init -> k <> "prompt" ->
                    TextTo3DTasks.filled v = true)
    /\ ("mode", TextTo3DTasks.VStr "preview") ∈ TextTo3DTasks.body init
    /\ ("prompt", TextTo3DTasks.VStr (TextTo3DTasks.text_prompt params))
       ∈ TextTo3DTasks.body init
    /\ forall makeRequestWithRetry w,
         TextTo3DTasks.createPreviewTask this params makeRequestWithRetry w
         = match makeRequestWithRetry (baseUrl this +:+ "/text-to-3d") init w with
           | (inl e, w1) => (inl e, w1)
           | (inr data, w1) =>
               let taskId :=
                 TextTo3DTasks.or_property (data !! "result") (data !! "id") in
               if falsy taskId
               then (inl (Error "No task ID returned from createPreviewTask"), w1)
               else (inr {| TextTo3DTasks.id := taskId;
                            TextTo3DTasks.task_status := "PENDING";
                            TextTo3DTasks.progress := 0;
                            TextTo3DTasks.created_at := pretty (clock w1 + 1000);
                            TextTo3DTasks.finished_at := 0 |},
                     snd (sleep 1000 w1))
           end.
Proof.
  eexists. do 6 (split; [shelve|]).
  { intros cb w. unfold TextTo3DTasks.createPreviewTask. rewrite bind_run.
    destruct (cb _ _ w) as [[e|data] w1] eqn:Hcb; rewrite Hcb; [reflexivity|].
    cbv zeta. destruct (falsy _); reflexivity. }
  Unshelve. all: cycle 6.
  - reflexivity.
  - reflexivity.
  - reflexivity.
  - intros k v Hin Hk. cbn [TextTo3DTasks.body] in Hin.
    repeat (apply elem_of_cons in Hin as [Heq|Hin];
            [injection Heq as -> ->; try done;
             first [ by apply filled_or_else
                   | cbn; apply negb_true_iff, bool_decide_eq_false;
                     by apply or_number_filled
                   | by destruct (TextTo3DTasks.moderation params) as [[]|] ]
            |]).
    by apply elem_of_nil in Hin.
  - cbn. left.
  - cbn. right. left.
Qed.

(** [createRefineTask] calls the request callback once, first thing, with
    [<baseUrl>/text-to-3d] and a POST whose body names the mode [refine]
    and the preview task id as given: the id is not checked, an empty one is
    sent. The texture prompt is [undefined] in the body exactly when none
    is given. The method rejects only when the callback does; when the
    callback resolves it resolves at once, without a sleep, with a
    [PENDING] task whose id is [result], else [id], of the reply: a reply
    that names no task gives a task without id. *)
Theorem createRefineTask_contract this previewTaskId params :
  exists init,
    TextTo3DTasks.method init = "POST"
    /\ map fst (TextTo3DTasks.body init)
       = ["mode"; "preview_task_id"; "enable_pbr"; "ai_model"; "texture_prompt"]
    /\ ("mode", TextTo3DTasks.VStr "refine") ∈ TextTo3DTasks.body init
    /\ ("preview_task_id", TextTo3DTasks.VStr previewTaskId)
       ∈ TextTo3DTasks.body init
    /\ (("texture_prompt", TextTo3DTasks.VUndefined) ∈ TextTo3DTasks.body init
        <-> params ≫= TextTo3DTasks.texture_prompt = None)
    /\ forall makeRequestWithRetry w,
         TextTo3DTasks.createRefineTask this previewTaskId makeRequestWithRetry
           params w
         = match makeRequestWithRetry (baseUrl this +:+ "/text-to-3d") init w with
           | (inl e, w1) => (inl e, w1)
           | (inr data, w1) =>
               (inr {| TextTo3DTasks.id :=
                         TextTo3DTasks.or_property (data !! "result")
                                                   (data !! "id");
                       TextTo3DTasks.task_status := "PENDING";
                       TextTo3DTasks.progress := 0;
                       TextTo3DTasks.created_at := pretty (clock w1);
                       TextTo3DTasks.finished_at := 0 |}, w1)
           end.
Proof.
  eexists. do 5 (split; [shelve|]).
  { intros cb w. unfold TextTo3DTasks.createRefineTask. rewrite bind_run.
    destruct (cb _ _ w) as [[e|data] w1] eqn:Hcb; rewrite Hcb; reflexivity. }
  Unshelve. all: cycle 5.
  - reflexivity.
  - reflexivity.
  - cbn. left.
  - cbn. right. left.
  - cbn [TextTo3DTasks.body]. split.
    + intros Hin.
      repeat (apply elem_of_cons in Hin as [Heq|Hin]; [try discriminate Heq|]).
      * by destruct (params ≫= TextTo3DTasks.texture_prompt).
      * by apply elem_of_nil in Hin.
    + intros ->. do 4 right. left.
Qed.

Lemma truthy_property p :
  falsy p = false -> exists s, p = Some s /\ s <> "".
Proof.
  destruct p as [s|]; [|done]. cbn. intros H%bool_decide_eq_false. by exists s.
Qed.

(** [createRetextureTask], once its two checks have passed: the request
    callback is called once, first thing, with [<baseUrl>/retexture] and a
    body that names exactly one input and exactly one style: the task id
    when one is given (the model URL is then left out), else the model
    URL; the text prompt when one is given (the image URL is then left
    out), else the image URL. No value of the body is [undefined] or
    empty. An error of the callback is passed on; a reply without task id
    ([result], else [id]) is rejected; otherwise the method resolves at
    once with a [PENDING] task that carries this id. *)
Theorem createRetextureTask_contract this params :
  falsy (input_task_id params) && falsy (model_url params) = false ->
  falsy (text_style_prompt params) && falsy (image_style_url params) = false ->
  exists init,
    body init !! "input_task_id"
    = (if falsy (input_task_id params) then None
       else Some (of_property (input_task_id params)))
    /\ body init !! "model_url"
       = (if falsy (input_task_id params)
          then Some (of_property (model_url params)) else None)
    /\ body init !! "text_style_prompt"
       = (if falsy (text_style_prompt params) then None
          else Some (of_property (text_style_prompt params)))
    /\ body init !! "image_style_url"
       = (if falsy (text_style_prompt params)
          then Some (of_property (image_style_url params)) else None)
    /\ (forall k v, body init !! k = Some v ->
                    v <> VUndefined /\ v <> VString "")
    /\ forall makeRequestWithRetry w,
         createRetextureTask this params makeRequestWithRetry w
         = match makeRequestWithRetry (baseUrl this +:+ "/retexture") init w with
           | (inl e, w1) => (inl e, w1)
           | (inr data, w1) =>
               match TextTo3DTasks.or_property (data !! "result") (data !! "id") with
               | Some taskId =>
                   if decide (taskId = "")
                   then (inl (Error "No task ID returned from createRetextureTask"),
                         w1)
                   else (inr {| id := taskId; task_status := "PENDING";
                                progress := 0; created_at := clock w1 |}, w1)
               | None =>
                   (inl (Error "No task ID returned from createRetextureTask"), w1)
               end
           end.
Proof.
  intros Hinput Hstyle. eexists. do 5 (split; [shelve|]).
  { intros cb w. unfold createRetextureTask. rewrite Hinput, Hstyle.
    rewrite bind_run.
    destruct (cb _ _ w) as [[e|data] w1] eqn:Hcb; rewrite Hcb; [reflexivity|].
    unfold TextTo3DTasks.or_property.
    destruct (falsy (data !! "result")) eqn:Hres.
    - destruct (data !! "id") as [s|]; [|reflexivity]. cbn [falsy].
      by case_decide; [rewrite bool_decide_eq_true_2|rewrite bool_decide_eq_false_2].
    - destruct (truthy_property _ Hres) as (s & -> & Hs). cbn [falsy].
      rewrite bool_decide_eq_false_2, decide_False by done. reflexivity. }
  Unshelve. all: cycle 5; cbn [body].
  - destruct (falsy (input_task_id params)); cbn [negb];
      destruct (falsy (text_style_prompt params)); cbn [negb];
      destruct (falsy (ai_model params)); cbn [negb];
      destruct (enable_original_uv params), (enable_pbr params);
      by simplify_map_eq.
  - destruct (falsy (input_task_id params)); cbn [negb];
      destruct (falsy (text_style_prompt params)); cbn [negb];
      destruct (falsy (ai_model params)); cbn [negb];
      destruct (enable_original_uv params), (enable_pbr params);
      by simplify_map_eq.
  - destruct (falsy (input_task_id params)); cbn [negb];
      destruct (falsy (text_style_prompt params)); cbn [negb];
      destruct (falsy (ai_model params)); cbn [negb];
      destruct (enable_original_uv params), (enable_pbr params);
      by simplify_map_eq.
  - destruct (falsy (input_task_id params)); cbn [negb];
      destruct (falsy (text_style_prompt params)); cbn [negb];
      destruct (falsy (ai_model params)); cbn [negb];
      destruct (enable_original_uv params), (enable_pbr params);
      by simplify_map_eq.
  - intros k v Hk.
    assert (Hval : forall p, falsy p = false ->
              of_property p <> VUndefined /\ of_property p <> VString "").
    { intros p (s & -> & Hs)%truthy_property. cbn. split; congruence. }
    destruct (falsy (input_task_id params)) eqn:H1; cbn [negb andb] in *;
      destruct (falsy (text_style_prompt params)) eqn:H2; cbn [negb andb] in *;
      destruct (falsy (ai_model params)) eqn:H3; cbn [negb] in *;
      destruct (enable_original_uv params), (enable_pbr params);
      repeat (apply lookup_insert_Some in Hk as [[_ <-]|[_ Hk]];
              [first [by apply Hval | done]|]);
      by rewrite lookup_empty in Hk.
Qed.

Lemma createRetextureTask_contract_witness :
  exists init,
    body init !! "input_task_id" = Some (VString "preview_1")
    /\ body init !! "model_url" = None
    /\ body init !! "text_style_prompt" = Some (VString "green moss")
    /\ body init !! "image_style_url" = None.
Proof.
  destruct (createRetextureTask_contract meshy_v1 both_inputs eq_refl eq_refl)
    as (init & Hinput & Hmodel & Htext & Himage & _).
  exists init. split; [exact Hinput|]. split; [exact Hmodel|].
  split; [exact Htext|exact Himage].
Defined.

(** ** Construction *)


(** ** Generating a model *)

Lemma generateModel_run E this prompt style polycount tPose w :
  let w1 := snd (fetch E (baseUrl (ModelSynth.text3d this) +:+ "/text-to-3d") w) in
  ModelSynth.generateModel E this prompt style polycount tPose w
  = match net E (fetched w) with
    | NetworkFailure m => (inl (Error m), w1)
    | Reply r =>
        if ok r then
          match json r with
          | None => (inl (Error "SyntaxError: invalid json response body"), w1)
          | Some data =>
              match TextTo3DTasks.or_property (data !! "result") (data !! "id") with
              | Some taskId =>
                  if decide (taskId = "")
                  then (inl (Error "No task ID returned from createPreviewTask"),
                        w1)
                  else pollTask E (ModelSynth.text3d this) taskId 60 10000
                                (snd (sleep 1000 w1))
              | None =>
                  (inl (Error "No task ID returned from createPreviewTask"), w1)
              end
          end
        else (inl (Error ("Request failed: " +:+ pretty (status r))), w1)
    end.
Proof.
  cbv zeta. unfold ModelSynth.generateModel, TextTo3DTasks.createPreviewTask,
    ModelSynth.makeRequest.
  rewrite !bind_run, fetch_world. unfold fetch.
  destruct (net E (fetched w)) as [m|r]; [reflexivity|].
  destruct (ok r); cbn [negb]; [|reflexivity].
  unfold response_json. destruct (json r) as [data|]; [|reflexivity].
  cbn [ret throw]. unfold TextTo3DTasks.or_property.
  destruct (falsy (data !! "result")) eqn:Hres.
  - destruct (data !! "id") as [s|]; [|reflexivity]. cbn [falsy].
    case_decide.
    + by rewrite bool_decide_eq_true_2.
    + by rewrite bool_decide_eq_false_2.
  - destruct (truthy_property _ Hres) as (s & -> & Hs). cbn [falsy].
    rewrite bool_decide_eq_false_2, decide_False by done. reflexivity.
Qed.

(** [character], [prop] and [collectible] run the same way, whatever their
    options: one POST to [<baseUrl>/text-to-3d], sent outside the request
    executor (no rate limiter, no retry); a transport failure, a reply
    that is not 2xx ([Request failed: <status>]), a body that is not JSON
    or a reply without task id ends the call there. Otherwise the call
    sleeps one second and is then exactly a [pollTask] of the returned id
    ([result], else [id]) with 60 ticks of 10 seconds. *)
Theorem model_generation_run E this w :
  forall generate,
    (exists options, generate = ModelSynth.character E this options)
    \/ (exists options, generate = ModelSynth.prop E this options)
    \/ (exists options, generate = ModelSynth.collectible E this options) ->
    let w1 :=
      snd (fetch E (baseUrl (ModelSynth.text3d this) +:+ "/text-to-3d") w) in
    generate w
    = match net E (fetched w) with
      | NetworkFailure m => (inl (Error m), w1)
      | Reply r =>
          if ok r then
            match json r with
            | None => (inl (Error "SyntaxError: invalid json response body"), w1)
            | Some data =>
                match TextTo3DTasks.or_property (data !! "result")
                                                (data !! "id") with
                | Some taskId =>
                    if decide (taskId = "")
                    then (inl (Error "No task ID returned from createPreviewTask"),
                          w1)
                    else pollTask E (ModelSynth.text3d this) taskId 60 10000
                                  (snd (sleep 1000 w1))
                | None =>
                    (inl (Error "No task ID returned from createPreviewTask"), w1)
                end
            end
          else (inl (Error ("Request failed: " +:+ pretty (status r))), w1)
      end.
Proof.
  intros generate [[options ->]|[[options ->]|[options ->]]];
    apply generateModel_run.
Qed.

Lemma model_generation_run_witness :
  ModelSynth.character rejects_prompt synth otter fresh
  = (inl (Error "Request failed: 429"),
     {| clock := 40; requestTimes := []; fetched := 1; drawn := 0;
        trace := [EFetch "https://api.meshy.ai/openapi/v2/text-to-3d"] |}).
Proof.
  rewrite (model_generation_run rejects_prompt synth fresh _
             (or_introl (ex_intro _ otter eq_refl))).
  reflexivity.
Defined.

(** A model generation never touches a rate window and never passes a rate
    limiter; it resolves with nothing but a task whose status is
    [SUCCEEDED]; and every request it makes goes to the text-to-3D
    endpoint of its first client: the POST that creates the preview task,
    then at most 240 status fetches of one task. Neither [character] with
    [rigged] or [animations] nor [prop] with [variants] sends a request to
    the rigging, animation or retexture endpoints. *)
Theorem model_generation_budget E this w :
  forall generate,
    (exists options, generate = ModelSynth.character E this options)
    \/ (exists options, generate = ModelSynth.prop E this options)
    \/ (exists options, generate = ModelSynth.collectible E this options) ->
    let w' := snd (generate w) in
    requestTimes w' = requestTimes w
    /\ admits (trace w') = admits (trace w)
    /\ resolves_succeeded (fst (generate w))
    /\ exists n taskId,
         (n <= 240)%nat
         /\ fetched w' = (fetched w + S n)%nat
         /\ fetch_log (trace w')
            = fetch_log (trace w)
              ++ (baseUrl (ModelSynth.text3d this) +:+ "/text-to-3d")
                 :: replicate n (baseUrl (ModelSynth.text3d this)
                                 +:+ "/text-to-3d/" +:+ taskId).
Proof.
  intros generate Hgen.
  assert (Hrun : exists prompt style polycount tPose,
            generate = ModelSynth.generateModel E this prompt style polycount tPose).
  { destruct Hgen as [[options ->]|[[options ->]|[options ->]]];
      unfold ModelSynth.character, ModelSynth.prop, ModelSynth.collectible;
      eexists _, _, _, _; reflexivity. }
  destruct Hrun as (prompt & style & polycount & tPose & ->). cbv zeta.
  rewrite generateModel_run. cbv zeta. rewrite fetch_world.
  set (url := baseUrl (ModelSynth.text3d this) +:+ "/text-to-3d").
  set (w1 := {| clock := clock w + Z.of_nat (latency E (fetched w));
                requestTimes := requestTimes w; fetched := S (fetched w);
                drawn := drawn w; trace := trace w ++ [EFetch url] |}).
  assert (Hstop : forall e : Err,
    requestTimes w1 = requestTimes w
    /\ admits (trace w1) = admits (trace w)
    /\ resolves_succeeded (inl e)
    /\ exists n taskId,
         (n <= 240)%nat
         /\ fetched w1 = (fetched w + S n)%nat
         /\ fetch_log (trace w1)
            = fetch_log (trace w)
              ++ url :: replicate n (baseUrl (ModelSynth.text3d this)
                                     +:+ "/text-to-3d/" +:+ taskId)).
  { intros e. split; [done|]. split.
    { cbn [trace w1]. unfold admits. rewrite count_app. unfold count. simpl. lia. }
    split; [done|]. exists 0%nat, "". cbn [w1 fetched trace replicate].
    rewrite fetch_log_app. repeat split; try lia. }
  destruct (net E (fetched w)) as [m|r]; [apply Hstop|].
  destruct (ok r); [|apply Hstop].
  destruct (json r) as [data|]; [|apply Hstop].
  destruct (TextTo3DTasks.or_property _ _) as [taskId|]; [|apply Hstop].
  case_decide; [apply Hstop|].
  assert (Hsleep : requestTimes (snd (sleep 1000 w1)) = requestTimes w
                   /\ admits (trace (snd (sleep 1000 w1))) = admits (trace w)
                   /\ fetched (snd (sleep 1000 w1)) = S (fetched w)
                   /\ fetch_log (trace (snd (sleep 1000 w1)))
                      = fetch_log (trace w) ++ [url]).
  { cbn [requestTimes fetched trace sleep bind emit advance snd w1].
    rewrite !fetch_log_app. unfold admits. rewrite !count_app. unfold count.
    cbn. rewrite app_nil_r. repeat split; lia. }
  destruct Hsleep as (Hrt1 & Hadm1 & Hf1 & Hl1).
  generalize dependent (snd (sleep 1000 w1)). intros w2 Hrt1 Hadm1 Hf1 Hl1.
  destruct (pollTask_ledger E (ModelSynth.text3d this) taskId 60 10000 w2)
    as (Hp & Hres & n & Hn & Hf & Hl).
  destruct (preserves_counts _ _ Hp) as [Hadm _]. destruct Hp as [Hrt _].
  split; [by rewrite Hrt|]. split; [by rewrite Hadm|].
  split; [exact Hres|]. exists n, taskId. split; [lia|]. split; [lia|].
  rewrite Hl, Hl1, <- app_assoc. reflexivity.
Qed.

Lemma model_generation_budget_witness :
  let run := ModelSynth.character pending_then_succeeded synth otter fresh in
  requestTimes (snd run) = []
  /\ admits (trace (snd run)) = 0%nat
  /\ resolves_succeeded (fst run).
Proof.
  destruct (model_generation_budget pending_then_succeeded synth fresh _
              (or_introl (ex_intro _ otter eq_refl)))
    as (Hrt & Hadm & Hres & _).
  cbv zeta. split; [exact Hrt|]. split; [exact Hadm|exact Hres].
Defined.
